(* ===== verification/_CoqProject ===== *)
-Q . S2P
Prelude.v
Soroban.v
Storage.v
Auth.v
TokenLedger.v
ByteBattle.v
Contract.v
Refinement.v
Scenarios.v
