(* ===== verification/Prelude.v ===== *)
(** * Soroban Byte Battle: a verification development

    ** The program

    A Soroban smart contract (src/src/lib.rs, src/src/auth.rs) in which
    two players each sign a wager; the contract checks both
    authorizations, escrows both stakes with a token contract and pays
    twice the stake to a winner picked by comparing one byte of each
    player's identity.  Its parts and how they interact:
    - the nonce ledger (auth.rs): a per-identity counter in the contract's
      storage; [verify_and_consume_nonce] accepts a proof only with the
      current counter and then advances it (implicit "invoker" proofs need
      nonce 0 and advance nothing);
    - the contract (lib.rs): [initialize] stores the token address once,
      [battle] reads both nonces, verifies each signature with
      [soroban_auth::verify] over [("battle", id, nonce, other, amount)],
      consumes the nonces through the ledger, pulls both stakes with the
      token's [xfer_from], derives tiebreak keys and compare indices and
      pays with [xfer]; [nonce] and [token] are reads;
    - collaborators the code only calls: the token contract
      ([token/soroban_token_spec.wasm]), [soroban_auth]'s signature checks,
      the host's storage, ledger clock and transaction rollback.

    ** Files

    - Prelude.v (this file): the outcome type [res], the state and error
      monad [SE] (stdpp's [MRet]/[MBind]/[MThrow]; an aborted computation
      keeps the state it reached, so theorems can speak of what happened
      before an abort), invariants of computations ([preserves], hint
      database [se_inv]), rule induction for invariants ([rtc_invariant]),
      checked [i64]/[u32] arithmetic, tactics [se_unfold] and [zlia].
    - Soroban.v: host types ([Identifier], [Signature], [Env], payloads,
      [Error]); [soroban_auth::verify] modelled from the crate's behaviour
      over the interface [SigScheme] (Ed25519 verification, with the one
      idealisation that a signature verifies for at most one payload under
      a key); the interface [AccountSerialize]; sample instances ([Samples]);
      the reference of the account check ([keys_increasing], [sigs_weight])
      and its equivalence with the loop [account_weight].
    - Storage.v: [DataKey] (lib.rs:14-19) and the store [gmap DataKey Val]
      with typed reads that abort on a mistyped value; the invariant
      [data_wf] (nonces are [i64] in [0, i64::MAX], the token a [BytesN<32>]).
    - Auth.v: [get_nonce], [set_nonce], [verify_and_consume_nonce]
      (auth.rs:12-40); the abstract ledger [consume_spec] over the total
      view [nonce_view]; refinement, invariant and replay theorems.
    - TokenLedger.v: the token as an interface ([TokenLedger], laws
      [TokenLedgerLaws]: how balances and allowances move, when a transfer
      is accepted) and [SimpleToken], a model from the specification that
      discharges the laws.
    - ByteBattle.v: the [World] (storage, token contracts by address, the
      log of completed token calls), the token client calls, [get_token],
      [initialize], [nonce], [token], [player_key] and [battle]
      (lib.rs:35-138) call for call, with [battle]'s authorization phase
      (lib.rs:48-66: both nonce reads, both verifications, both
      consumptions) as its own computation [authorize], and the abstract
      contest [battle_spec].
    - Contract.v: the entry points as a dispatch on [Call]; transactions
      with rollback ([run_tx]); the step relation of the ledger (contract
      transactions and arbitrary token activity), [reachable] states, and
      sequences of transactions ([run_trace]).
    - Refinement.v: the abstract contract of spec section 4.2 (the token
      address and the nonce ledger as a total map, [AState]), its
      transitions [spec_step], the abstraction [abs] of a world, and the
      refinement theorems in both directions.
    - Scenarios.v: the repository's tests (src/tests) on concrete fixtures,
      evaluated, and the witnesses of the theorems.

    ** What the theorems show

    - The defect: in a successful [battle] both tiebreak keys and both
      compare indices are player 1's (lib.rs:94 matches on [signer1_id]),
      so the byte comparison is always false and player 2 is always paid:
      [battle_keys_coincide], [battle_pays_player2], [battle_balances] (for
      distinct parties player 1 loses the stake, player 2 gains it), and
      the concrete [test_battle_p1_larger_byte].
    - Refinement: [verify_and_consume_nonce_refines] (storage-level ledger
      against [consume_spec]) and [battle_refines] (a successful battle is
      exactly the abstract contest); [battle_succeeds] is the converse: the
      preconditions of the contest make [battle] return;
      [run_tx_refines_spec] (Refinement.v): every transaction is a
      transition of the abstract contract; [run_tx_complete] is the
      converse: every successful abstract transition is taken by the code
      (a battle when the token accepts the stakes, [token_ready]).
    - Authorization: [verify_and_consume_nonce_no_replay] and
      [battle_no_replay] (a signed message is usable once),
      [battle_rejects_mismatched_terms] (wrong amount or counterpart is
      [InvalidAuthorization] with nothing written), and
      [invoker_battle_keeps_nonces] (implicit proofs advance nothing);
      [authorize_symmetric] (spec section 8: the order of the two proofs
      does not matter, the same world results, resting on the commutation
      of two consumptions, [consume_commute]).
    - Account proofs: [verify_account_signatures_spec] (Soroban.v: the
      loop of the account check is equivalent to its reference, keys
      strictly increasing, all signatures valid, total weight a [u32]
      reaching the threshold); [battle_no_replay_account] (account proofs
      are not replayable when the threshold is positive), and the gap
      [empty_account_proof_accepted] (with threshold 0 a proof without
      signatures passes for every message).
    - Errors: [battle_before_initialize_aborts] (without a token address
      every battle aborts and the rollback leaves the world unchanged),
      [battle_same_signer_aborts] (two signed proofs of one identity never
      pass together), [battle_invoker_nonce_locked] (an identity with a
      non-zero counter can no longer fight as the invoker:
      [IncorrectNonceForInvoker]).
    - Entry points: [entry_points_results] ([initialize], [nonce] and
      [token] on every branch, with the error each abort raises).
    - Termination: [signed_acceptance_terminates] (no infinite sequence of
      transactions accepting signed proofs of one identity; the variant is
      [i64::MAX - nonce], decreasing under [Zwf 0]).
    - Invariants: well-typed storage is preserved by the ledger, by
      [battle] (also when it aborts, [battle_run_preserves]) and holds in every reachable state
      ([reachable_wf]); the token address is write-once
      ([initialize_write_once], [token_address_immutable]); nonces never
      decrease ([nonce_monotone]); along any sequence of transactions
      ([run_trace]) each counter grows by exactly the signed proofs of its
      identity in accepted battles ([nonce_counts_accepted_proofs], spec
      section 8).
    - Bounds: [battle_compare_index] (indices [timestamp mod 32], [+16] for
      an account, below 48); nonces stay below [i64::MAX], and consuming at
      the bound aborts with [Overflow] (part of [consume_spec]);
      [battle_nonce_overflow] (a battle at the boundary aborts with
      [Overflow] and writes nothing).
    - Round trip: [initialize_write_once] ([token] returns the address
      [initialize] stored, and a second [initialize] changes nothing).

    ** Bounds and fuel

    Every definition is structurally recursive or non-recursive: no fuel is
    needed.  Integers are [Z] with their Rust range: nonces [i64] with
    checked [+ 1] (a build with overflow checks), the compare index [u32]
    with checked [+= 16], the timestamp a [u64] used through [mod 32],
    amounts [BigInt] (unbounded, as in the code).

    ** Not modelled, and why

    The Ed25519 primitive and the XDR serialization (host functions;
    interfaces with an idealised law), the token contract's code (a wasm
    file; interface plus a specification model, whose own signature and
    nonce checks on [approve] and [mint] are left out), the account signer
    policy (read from [Env]), and the test helper's random contract ids.

    What remains is outside the repository's code: the token contract's
    own administration ([init], [approve] and [mint] authorization by its
    admin, used only by the tests to set balances and allowances), the
    Ed25519 primitive, XDR serialization, and the host itself.  These are
    interfaces or specification models, and the components that contain
    them stay "partly" modelled.  The lines of src/src not covered by the
    model are imports, module and struct declarations and blank lines. *)

From Stdlib Require Import ZArith Lia.
From stdpp Require Import base list gmap countable relations.

(** ** Results

    Every contract operation of the repository either returns a value or
    aborts the invocation (a Rust [panic!], [panic_with_error!] or a failed
    [unwrap]).  [res E A] is that outcome. *)

Inductive res (E A : Type) : Type :=
| Ok (a : A)
| Err (e : E).
Arguments Ok {E A} a.
Arguments Err {E A} e.

Definition res_bind {E A B} (r : res E A) (f : A -> res E B) : res E B :=
  match r with Ok a => f a | Err e => Err e end.

(** [Option::unwrap] with the error it raises on [None]. *)
Definition unwrap_or_err {E A} (e : E) (o : option A) : res E A :=
  match o with Some a => Ok a | None => Err e end.

(** ** The state and error monad of a contract invocation

    A computation reads and writes a state [S] and may abort with an error
    of [E].  On abort it still returns the state reached at the abort
    point: the host discards that state ([run_tx] in Contract.v), but keeping
    it lets theorems speak of what had already happened when the
    invocation aborted (which external calls had been made). *)

Definition SE (S E A : Type) : Type := S -> res E A * S.

#[export] Instance SE_ret {S E} : MRet (SE S E) :=
  fun A a s => (Ok a, s).
#[export] Instance SE_bind {S E} : MBind (SE S E) :=
  fun A B f m s =>
    match m s with
    | (Ok a, s') => f a s'
    | (Err e, s') => (Err e, s')
    end.
#[export] Instance SE_throw {S E} : MThrow E (SE S E) :=
  fun A e s => (Err e, s).

Definition se_get {S E} : SE S E S := fun s => (Ok s, s).
Definition se_put {S E} (s : S) : SE S E unit := fun _ => (Ok tt, s).
Definition se_lift {S E A} (r : res E A) : SE S E A := fun s => (r, s).

(** Lift a computation on a part [T] of the state [S], given its getter
    and setter. *)
Definition se_focus {S T E A} (get : S -> T) (set : T -> S -> S)
    (m : SE T E A) : SE S E A :=
  fun s => let '(r, t') := m (get s) in (r, set t' s).

Declare Scope bb_scope.
Delimit Scope bb_scope with bb.
Open Scope bb_scope.

(** Abort with [e] unless [b] holds (an [if !b { panic!(..) }] of the code). *)
Definition se_assert {S E} (b : bool) (e : E) : SE S E unit :=
  if b then mret tt else mthrow e.

(** ** Invariants of monadic computations

    [preserves P m]: from a state satisfying [P], [m] ends (returning or
    aborting) in a state satisfying [P]. *)

Definition preserves {S E A} (P : S -> Prop) (m : SE S E A) : Prop :=
  forall s, P s -> P (snd (m s)).

Local Open Scope Z_scope.

(** ** Machine integers

    Rust's fixed-width integers, kept as [Z] with their range written out.
    Arithmetic is the checked arithmetic of a build with overflow checks
    (Soroban contracts are built with [overflow-checks = true], and the
    repository's tests run in debug mode): an out-of-range result aborts. *)

Definition i64_min : Z := - 2 ^ 63.
Definition i64_max : Z := 2 ^ 63 - 1.
Definition u32_max : Z := 2 ^ 32 - 1.
Definition u64_max : Z := 2 ^ 64 - 1.

Definition in_range (lo hi z : Z) : bool := (lo <=? z) && (z <=? hi).

Definition checked_add (lo hi a b : Z) : option Z :=
  if in_range lo hi (a + b) then Some (a + b) else None.

Definition i64_checked_add : Z -> Z -> option Z := checked_add i64_min i64_max.
Definition u32_checked_add : Z -> Z -> option Z := checked_add 0 u32_max.

Create HintDb se_inv discriminated.


Section Monad_lemmas.
Context {S E : Type}.

Lemma se_bind_ok {A B} (m : SE S E A) (f : A -> SE S E B) s a s' :
  m s = (Ok a, s') -> (x ← m; f x) s = f a s'.
Proof. intros H. cbv [mbind SE_bind]. by rewrite H. Qed.

Lemma se_bind_lift_Ok {A B} (a : A) (f : A -> SE S E B) s :
  (x ← se_lift (Ok a); f x) s = f a s.
Proof. done. Qed.

Lemma se_bind_assoc {A B C} (m : SE S E A) (f : A -> SE S E B) (g : B -> SE S E C) s :
  (y ← (x ← m; f x); g y) s = (x ← m; y ← f x; g y) s.
Proof. cbv [mbind SE_bind]. by destruct (m s) as [[a|e] s']. Qed.

Lemma se_bind_err {A B} (m : SE S E A) (f : A -> SE S E B) s e s' :
  m s = (Err e, s') -> (x ← m; f x) s = (Err e, s').
Proof. intros H. cbv [mbind SE_bind]. by rewrite H. Qed.

Lemma se_bind_inv {A B} (m : SE S E A) (f : A -> SE S E B) s r s'' :
  (x ← m; f x) s = (r, s'') ->
  (exists a s', m s = (Ok a, s') /\ f a s' = (r, s'')) \/
  (exists e, m s = (Err e, s'') /\ r = Err e).
Proof.
  cbv [mbind SE_bind]. destruct (m s) as [[a|e] s'].
  - intros H. left. eauto.
  - intros H. simplify_eq. right. eauto.
Qed.

Lemma se_bind_Ok_inv {A B} (m : SE S E A) (f : A -> SE S E B) s b s'' :
  (x ← m; f x) s = (Ok b, s'') ->
  exists a s', m s = (Ok a, s') /\ f a s' = (Ok b, s'').
Proof.
  intros H. apply se_bind_inv in H as [(a & s' & ? & ?)|(e & ? & ?)]; [eauto|done].
Qed.

Lemma se_lift_Ok_inv {A} (r : res E A) (s : S) a s' :
  se_lift r s = (Ok a, s') -> r = Ok a /\ s' = s.
Proof. cbv [se_lift]. by intros [= -> ->]. Qed.

Lemma se_assert_Ok_inv b (e : E) (s : S) u s' :
  se_assert b e s = (Ok u, s') -> b = true /\ s' = s.
Proof. cbv [se_assert mret mthrow SE_ret SE_throw]. by destruct b; intros [=]. Qed.

Lemma preserves_ret {A} P (a : A) : preserves P (mret a : SE S E A).
Proof. by intros s. Qed.

Lemma preserves_throw {A} P (e : E) : preserves P (mthrow e : SE S E A).
Proof. by intros s. Qed.

Lemma preserves_lift {A} P (r : res E A) : preserves P (se_lift r : SE S E A).
Proof. by intros s. Qed.

Lemma preserves_get P : preserves P (se_get : SE S E S).
Proof. by intros s. Qed.

Lemma preserves_bind {A B} P (m : SE S E A) (f : A -> SE S E B) :
  preserves P m -> (forall a, preserves P (f a)) ->
  preserves P (x ← m; f x).
Proof.
  intros Hm Hf s Hs. cbv [mbind SE_bind].
  specialize (Hm s Hs). destruct (m s) as [[a|e] s']; simpl in *; auto.
  by apply Hf.
Qed.

Lemma preserves_assert P b (e : E) : preserves P (se_assert b e : SE S E unit).
Proof. intros s. by destruct b. Qed.

Lemma preserves_if {A} P (b : bool) (m1 m2 : SE S E A) :
  preserves P m1 -> preserves P m2 -> preserves P (if b then m1 else m2).
Proof. by destruct b. Qed.
End Monad_lemmas.

#[export] Hint Resolve preserves_ret preserves_throw preserves_lift
  preserves_get preserves_bind preserves_if preserves_assert : se_inv.

Lemma in_range_spec lo hi z : in_range lo hi z = true <-> lo <= z <= hi.
Proof. unfold in_range. rewrite andb_true_iff, !Z.leb_le. done. Qed.

Lemma checked_add_Some lo hi a b c :
  checked_add lo hi a b = Some c <-> c = a + b /\ lo <= a + b <= hi.
Proof.
  unfold checked_add. destruct (in_range lo hi (a + b)) eqn:E.
  - apply in_range_spec in E. split; [intros; simplify_eq; lia | intros [-> _]; done].
  - split; [done|]. intros [_ H]. apply in_range_spec in H. congruence.
Qed.

Lemma checked_add_None lo hi a b :
  checked_add lo hi a b = None <-> ~ (lo <= a + b <= hi).
Proof.
  unfold checked_add. destruct (in_range lo hi (a + b)) eqn:E.
  - apply in_range_spec in E. split; [done|tauto].
  - split; [|done]. intros _ H. apply in_range_spec in H. congruence.
Qed.

Lemma checked_add_in lo hi a b :
  lo <= a + b <= hi -> checked_add lo hi a b = Some (a + b).
Proof. intros H. by apply checked_add_Some. Qed.

(** Invariants of a transition relation hold along its reflexive
    transitive closure (rule induction on [rtc]). *)
Lemma rtc_invariant {A} (R : relation A) (P : A -> Prop) x y :
  (forall a b, P a -> R a b -> P b) -> rtc R x y -> P x -> P y.
Proof. intros Hstep Hrtc. induction Hrtc; eauto. Qed.

(** ** Proof automation shared by the components *)

(** Unfold the monad's operations and compute as far as the state allows. *)
Ltac se_unfold :=
  cbv [mbind mret mthrow SE_bind SE_ret SE_throw se_get se_put se_lift se_focus se_assert] in *.

(** [lia] with the integer bounds unfolded. *)
Ltac zlia := unfold i64_min, i64_max, u32_max, u64_max in *; lia.
