(* ===== verification/Soroban.v ===== *)
(** * Host types and host services used by the contract

    The data the contract receives from the Soroban host and from the
    [soroban_auth] crate: identities ([Identifier]), authorization proofs
    ([Signature]), the invoker, the read-only invocation environment
    ([Env]), signature payloads, and the error taxonomy of an aborted
    invocation.  It also models [soroban_auth::verify], which the contract
    calls at src/src/lib.rs:53 and :60: that crate is a dependency, not code
    of the repository, so its model follows the crate's documented
    behaviour; the Ed25519 check itself is an interface ([SigScheme]) whose
    one law is the idealisation that a signature verifies for at most one
    payload under a key.  The theorems relate the account check to a
    reference without the loop, show that an account proof is bound to one
    message when the threshold is positive, and that it binds nothing when
    the threshold is 0. *)

From Stdlib Require Import ZArith Lia String.
From stdpp Require Import base list gmap countable strings.
From S2P Require Import Prelude.

Local Open Scope Z_scope.

(** ** Byte strings

    [Bytes] and [BytesN<n>] are lists of [u8] values. *)
Abbreviation bytes := (list Z).

Definition is_byte (z : Z) : bool := in_range 0 255 z.
Definition bytesN (n : nat) (b : bytes) : bool :=
  (length b =? n)%nat && forallb is_byte b.

(** Lexicographic order on byte strings (the [Ord] of [BytesN]). *)
Fixpoint bytes_ltb (a b : bytes) : bool :=
  match a, b with
  | [], [] => false
  | [], _ :: _ => true
  | _ :: _, [] => false
  | x :: a', y :: b' => (x <? y) || ((x =? y) && bytes_ltb a' b')
  end.

(** An account is named by its Ed25519 public key. *)
Abbreviation AccountId := bytes.

(** ** Identities: [soroban_auth::Identifier] *)
Inductive Identifier :=
| Contract (id : bytes)
| Ed25519 (pk : bytes)
| Account (a : AccountId).

#[export] Instance Identifier_eq_dec : EqDecision Identifier.
Proof. solve_decision. Defined.

#[export] Program Instance Identifier_countable : Countable Identifier :=
  inj_countable'
    (fun i => match i with
              | Contract c => inl c | Ed25519 k => inr (inl k)
              | Account a => inr (inr a) end)
    (fun x => match x with
              | inl c => Contract c | inr (inl k) => Ed25519 k
              | inr (inr a) => Account a end) _.
Next Obligation. by intros []. Qed.

(** ** Authorization proofs: [soroban_auth::Signature] *)
Record Ed25519Signature := {
  public_key : bytes;   (** BytesN<32> *)
  signature : bytes     (** BytesN<64> *)
}.

Record AccountSignatures := {
  account_id : AccountId;
  signatures : list Ed25519Signature
}.

Inductive Signature :=
| Invoker
| SigEd25519 (s : Ed25519Signature)
| SigAccount (a : AccountSignatures).

#[export] Instance Ed25519Signature_eq_dec : EqDecision Ed25519Signature.
Proof. solve_decision. Defined.
#[export] Instance AccountSignatures_eq_dec : EqDecision AccountSignatures.
Proof. solve_decision. Defined.
#[export] Instance Signature_eq_dec : EqDecision Signature.
Proof. solve_decision. Defined.

(** The direct caller of the contract ([soroban_sdk::Invoker]). *)
Inductive InvokerKind :=
| InvokerAccount (a : AccountId)
| InvokerContract (c : bytes).

(** ** The invocation environment

    What the host lets one invocation read: the ledger, the contract's own
    address, its invoker, and the ledger's account entries (signing
    threshold and signer weights), which [soroban_auth] consults for
    account signatures. *)
Record Env := {
  ledger_timestamp : Z;              (** u64 *)
  network_passphrase : bytes;
  current_contract : bytes;          (** BytesN<32> *)
  invoker : InvokerKind;
  account_threshold : AccountId -> option Z;  (** None: no such account *)
  signer_weight : AccountId -> bytes -> Z
}.

(** [Signature::identifier]: the identity a proof speaks for. *)
Definition sig_identifier (env : Env) (sig : Signature) : Identifier :=
  match sig with
  | Invoker =>
      match invoker env with
      | InvokerAccount a => Account a
      | InvokerContract c => Contract c
      end
  | SigEd25519 s => Ed25519 (public_key s)
  | SigAccount a => Account (account_id a)
  end.

(** ** Signature payloads: [SignaturePayloadV0]

    A signature covers the network, the contract, a function-name label and
    the argument values. *)
Inductive ArgVal :=
| AId (i : Identifier)
| AI64 (n : Z)
| ABigInt (n : Z).

#[export] Instance ArgVal_eq_dec : EqDecision ArgVal.
Proof. solve_decision. Defined.

#[export] Program Instance ArgVal_countable : Countable ArgVal :=
  inj_countable'
    (fun v => match v with
              | AId i => inl i | AI64 n => inr (inl n) | ABigInt n => inr (inr n) end)
    (fun x => match x with
              | inl i => AId i | inr (inl n) => AI64 n | inr (inr n) => ABigInt n end) _.
Next Obligation. by intros []. Qed.

Record SignaturePayload := {
  sp_network : bytes;
  sp_contract : bytes;
  sp_name : string;
  sp_args : list ArgVal
}.

#[export] Instance SignaturePayload_eq_dec : EqDecision SignaturePayload.
Proof. solve_decision. Defined.

#[export] Program Instance SignaturePayload_countable : Countable SignaturePayload :=
  inj_countable'
    (fun p => (sp_network p, sp_contract p, sp_name p, sp_args p))
    (fun '(n, c, f, a) => Build_SignaturePayload n c f a) _.
Next Obligation. by intros []. Qed.

Definition signature_payload (env : Env) (name : string) (args : list ArgVal)
    : SignaturePayload :=
  {| sp_network := network_passphrase env; sp_contract := current_contract env;
     sp_name := name; sp_args := args |}.

(** ** Errors of an aborted invocation *)
Inductive TokenError :=
| TkNoContract               (** no token contract at the address *)
| TkNegativeAmount
| TkInsufficientAllowance
| TkInsufficientBalance.

Inductive Error :=
| AlreadyInitialized          (** panic!("Error: Already initialized") *)
| IncorrectNonceForInvoker    (** auth::Error::IncorrectNonceForInvoker = 1 *)
| IncorrectNonce              (** auth::Error::IncorrectNonce = 2 *)
| InvalidAuthorization        (** soroban_auth::verify rejects the proof *)
| ConversionError             (** Result::unwrap of a mistyped stored value *)
| UnwrapNone                  (** Option::unwrap of None *)
| Overflow                    (** checked integer arithmetic *)
| TokenFailed (e : TokenError).

#[export] Instance TokenError_eq_dec : EqDecision TokenError.
Proof. solve_decision. Defined.
#[export] Instance Error_eq_dec : EqDecision Error.
Proof. solve_decision. Defined.

(** ** Host services (interfaces) *)

(** Ed25519 verification of a payload ([Env::verify_sig_ed25519] on the
    payload's serialization).  The law is the idealisation of the
    signature scheme the development relies on. *)
Class SigScheme := {
  ed25519_verify : bytes -> SignaturePayload -> bytes -> bool;
  ed25519_verify_unique pk p p' s :
    ed25519_verify pk p s = true -> ed25519_verify pk p' s = true -> p = p'
}.

(** XDR serialization of an account id ([AccountId::serialize]). *)
Class AccountSerialize := {
  serialize_account : AccountId -> bytes
}.

(** ** [soroban_auth::verify] *)
Section Verify.
Context `{SigScheme}.

Definition verify_ed25519_signature (env : Env) (s : Ed25519Signature)
    (name : string) (args : list ArgVal) : res Error unit :=
  if ed25519_verify (public_key s) (signature_payload env name args) (signature s)
  then Ok tt else Err InvalidAuthorization.

(** The loop over an account's signatures: keys strictly increasing,
    every signature valid, weights summed as [u32]. *)
Fixpoint account_weight (env : Env) (acc : AccountId) (p : SignaturePayload)
    (prev : option bytes) (sigs : list Ed25519Signature) (weight : Z) : res Error Z :=
  match sigs with
  | [] => Ok weight
  | s :: rest =>
      if match prev with Some pk => negb (bytes_ltb pk (public_key s)) | None => false end
      then Err InvalidAuthorization
      else if ed25519_verify (public_key s) p (signature s) then
        match u32_checked_add weight (signer_weight env acc (public_key s)) with
        | Some w => account_weight env acc p (Some (public_key s)) rest w
        | None => Err Overflow
        end
      else Err InvalidAuthorization
  end.

Definition verify_account_signatures (env : Env) (a : AccountSignatures)
    (name : string) (args : list ArgVal) : res Error unit :=
  match account_threshold env (account_id a) with
  | None => Err UnwrapNone
  | Some threshold =>
      res_bind (account_weight env (account_id a) (signature_payload env name args)
                  None (signatures a) 0)
        (fun w => if w <? threshold then Err InvalidAuthorization else Ok tt)
  end.

Definition verify (env : Env) (sig : Signature) (name : string)
    (args : list ArgVal) : res Error unit :=
  match sig with
  | Invoker => Ok tt
  | SigEd25519 s => verify_ed25519_signature env s name args
  | SigAccount a => verify_account_signatures env a name args
  end.
End Verify.

(** ** A reference for the account check

    What [account_weight] computes, stated without the loop: the keys are
    strictly increasing, every signature is valid, and the total weight is
    a [u32]; the result is that total. *)
Fixpoint keys_increasing (prev : option bytes) (ks : list bytes) : bool :=
  match ks with
  | [] => true
  | k :: ks' =>
      match prev with Some p => bytes_ltb p k | None => true end &&
      keys_increasing (Some k) ks'
  end.

Definition sigs_weight (env : Env) (acc : AccountId) (sigs : list Ed25519Signature) : Z :=
  foldr (fun s t => signer_weight env acc (public_key s) + t) 0 sigs.

(** ** Sample instances of the host services

    A symbolic signature scheme (a signature is an injective encoding of
    the key and the payload, so the law holds by construction) and an
    account serialization with a 16-byte header before the 32 key bytes,
    the layout the compare-index bias of src/src/lib.rs:88 assumes.  They
    are used to evaluate concrete runs. *)
Module Samples.
Definition sym_sign (pk : bytes) (p : SignaturePayload) : bytes :=
  [Zpos (encode (pk, p))].

#[export] Program Instance sym_scheme : SigScheme := {
  ed25519_verify pk p s := bool_decide (s = sym_sign pk p) }.
Next Obligation.
  intros pk p p' s H1 H2. apply bool_decide_eq_true in H1, H2. subst.
  injection H2 as H2. apply (inj encode) in H2. congruence.
Qed.

#[export] Instance xdr_account : AccountSerialize := {
  serialize_account a := [0; 0; 0; 4; 0; 0; 0; 1; 0; 0; 0; 4; 0; 0; 0; 0] ++ a }.
End Samples.

(** ** The account check against its reference *)
Section Account_weight.
Context `{SigScheme} (env : Env) (acc : AccountId) (p : SignaturePayload).
Hypothesis weights_nonneg : forall pk, 0 <= signer_weight env acc pk.

Lemma sigs_weight_nonneg sigs : 0 <= sigs_weight env acc sigs.
Proof.
  induction sigs as [|s sigs IH]; simpl; [lia|]. specialize (weights_nonneg (public_key s)). lia.
Qed.

(** The loop from any point: with the previous key [prev] and the weight
    [w0] accumulated so far. *)
Lemma account_weight_Ok_iff prev sigs w0 w :
  0 <= w0 <= u32_max ->
  account_weight env acc p prev sigs w0 = Ok w <->
  keys_increasing prev (map public_key sigs) = true /\
  Forall (fun s => ed25519_verify (public_key s) p (signature s) = true) sigs /\
  w0 + sigs_weight env acc sigs <= u32_max /\ w = w0 + sigs_weight env acc sigs.
Proof.
  revert prev w0. induction sigs as [|s sigs IH]; intros prev w0 Hw0; simpl.
  { split; [intros [= <-]|intros (_ & _ & _ & ->)].
    - cbn [sigs_weight foldr]. split_and!; first [done | apply Forall_nil | lia].
    - cbn [sigs_weight foldr]. f_equal. lia. }
  rewrite Forall_cons.
  assert (Hs := weights_nonneg (public_key s)). assert (Hr := sigs_weight_nonneg sigs).
  destruct (match prev with Some pk => negb (bytes_ltb pk (public_key s)) | None => false end)
    eqn:Hord.
  { split; [done|]. intros (Hk & _). destruct prev; simpl in *; [|done].
    apply andb_true_iff in Hk as [Hk _]. by rewrite Hk in Hord. }
  assert (Hk : (match prev with Some pk => bytes_ltb pk (public_key s) | None => true end) = true)
    by (destruct prev; [by apply negb_false_iff|done]).
  rewrite Hk. simpl.
  destruct (ed25519_verify (public_key s) p (signature s)); [|split; [done|by intros (_ & [? _] & _)]].
  unfold u32_checked_add. destruct (checked_add 0 u32_max w0 _) as [w1|] eqn:Hc.
  - apply checked_add_Some in Hc as [-> Hc]. rewrite IH by zlia.
    split; [intros (? & ? & ? & ->); repeat split; auto; lia|].
    intros (? & [_ ?] & ? & ->). repeat split; auto; lia.
  - apply checked_add_None in Hc. split; [done|]. intros (_ & _ & ? & _). zlia.
Qed.

End Account_weight.

(** The proof of [verify_account_signatures_spec], shared with the other proofs. *)
Lemma verify_account_signatures_iff `{SigScheme} env a name args :
  (forall pk, 0 <= signer_weight env (account_id a) pk) ->
  verify_account_signatures env a name args = Ok tt <->
  exists th, account_threshold env (account_id a) = Some th /\
    keys_increasing None (map public_key (signatures a)) = true /\
    Forall (fun s => ed25519_verify (public_key s) (signature_payload env name args)
                       (signature s) = true) (signatures a) /\
    th <= sigs_weight env (account_id a) (signatures a) <= u32_max.
Proof.
  intros Hw. unfold verify_account_signatures.
  destruct (account_threshold env (account_id a)) as [th|]; [|split; [done|by intros (? & ? & _)]].
  destruct (account_weight _ _ _ None _ 0) as [w|e] eqn:Hr; simpl.
  - apply account_weight_Ok_iff in Hr as (Hk & Hv & Hb & ->); [|done|zlia].
    destruct (Z.ltb_spec (0 + sigs_weight env (account_id a) (signatures a)) th).
    + split; [done|]. intros (? & [= <-] & _ & _ & ? & _). lia.
    + split; [|done]. intros _. exists th. split_and!; auto; lia.
  - split; [done|]. intros (? & [= <-] & Hk & Hv & _ & ?).
    assert (Hok : account_weight env (account_id a) (signature_payload env name args) None
                    (signatures a) 0 = Ok (0 + sigs_weight env (account_id a) (signatures a))).
    { apply account_weight_Ok_iff; [done|zlia|split_and!; auto; lia]. }
    congruence.
Qed.

(** An account proof whose account needs a positive weight is bound to one
    message: accepted for [args], it is rejected, with
    [InvalidAuthorization], for any other argument list. *)
Lemma verify_account_binds `{SigScheme} env a name args args' th :
  (forall pk, 0 <= signer_weight env (account_id a) pk) ->
  account_threshold env (account_id a) = Some th -> 0 < th ->
  verify_account_signatures env a name args = Ok tt -> args' <> args ->
  verify_account_signatures env a name args' = Err InvalidAuthorization.
Proof.
  intros Hw Hth Hpos Hok Hne.
  apply verify_account_signatures_iff in Hok as (th' & Hth' & _ & Hv & Hb); [|done].
  rewrite Hth in Hth'. injection Hth' as <-.
  unfold verify_account_signatures. rewrite Hth.
  destruct (signatures a) as [|s0 rest]; [simpl in Hb; lia|].
  apply Forall_cons in Hv as [Hv0 _]. simpl.
  destruct (ed25519_verify (public_key s0) (signature_payload env name args') (signature s0))
    eqn:E; [|done].
  exfalso. apply Hne. by injection (ed25519_verify_unique _ _ _ _ E Hv0).
Qed.
