(* ===== verification/Storage.v ===== *)
(** * The contract's storage

    [DataKey] (src/src/lib.rs:14-19) keys the contract's persistent data,
    [env.data()]: the nonce of each identity and the token address.  The
    store is a finite map from keys to host values; a read converts the
    stored value to the type the code asks for and aborts on a mismatch
    ([unwrap] of a [ConversionError]).  The invariant [data_wf] says every
    key holds a value of the type the contract writes there: a nonce is an
    [i64] in [0, i64::MAX], the token address a [BytesN<32>]. *)

From Stdlib Require Import ZArith Lia.
From stdpp Require Import base list gmap countable.
From S2P Require Import Prelude Soroban.

Local Open Scope Z_scope.

Inductive DataKey :=
| Nonce (id : Identifier)
| Token.

#[export] Instance DataKey_eq_dec : EqDecision DataKey.
Proof. solve_decision. Defined.

#[export] Program Instance DataKey_countable : Countable DataKey :=
  inj_countable'
    (fun k => match k with Nonce i => Some i | Token => None end)
    (fun o => match o with Some i => Nonce i | None => Token end) _.
Next Obligation. by intros []. Qed.

(** The host values the contract stores. *)
Inductive Val :=
| VI64 (n : Z)
| VBytes (b : bytes).

Abbreviation Data := (gmap DataKey Val).

(** [env.data().has(k)] *)
Definition data_has (k : DataKey) (d : Data) : bool := bool_decide (is_Some (d !! k)).

(** [env.data().get::<_, i64>(k)]: absent, or the converted value. *)
Definition data_get_i64 (k : DataKey) (d : Data) : option (res Error Z) :=
  match d !! k with
  | None => None
  | Some (VI64 n) => Some (Ok n)
  | Some (VBytes _) => Some (Err ConversionError)
  end.

(** [env.data().get::<_, BytesN<32>>(k)] *)
Definition data_get_bytes32 (k : DataKey) (d : Data) : option (res Error bytes) :=
  match d !! k with
  | None => None
  | Some (VBytes b) => Some (if bytesN 32 b then Ok b else Err ConversionError)
  | Some (VI64 _) => Some (Err ConversionError)
  end.

(** [env.data().set(k, v)] *)
Definition data_set (k : DataKey) (v : Val) (d : Data) : Data := <[k := v]> d.

(** ** Well-typed storage *)

Definition val_wfb (k : DataKey) (v : Val) : bool :=
  match k, v with
  | Nonce _, VI64 n => in_range 0 i64_max n
  | Token, VBytes b => bytesN 32 b
  | _, _ => false
  end.

Definition data_wf (d : Data) : Prop := map_Forall (fun k v => val_wfb k v = true) d.

#[export] Instance data_wf_dec d : Decision (data_wf d).
Proof. unfold data_wf. apply _. Defined.

Create HintDb storage discriminated.
Create Rewrite HintDb storage_rw.

Lemma data_wf_empty : data_wf ∅.
Proof. apply map_Forall_empty. Qed.

Lemma data_wf_set d k v :
  data_wf d -> val_wfb k v = true -> data_wf (data_set k v d).
Proof. intros Hd Hv. by apply map_Forall_insert_2. Qed.

Lemma data_wf_nonce d id :
  data_wf d -> data_get_i64 (Nonce id) d <> Some (Err ConversionError) /\
  forall m, data_get_i64 (Nonce id) d = Some (Ok m) -> 0 <= m <= i64_max.
Proof.
  intros Hd. unfold data_get_i64.
  destruct (d !! Nonce id) as [[m|b]|] eqn:E; try done;
    apply Hd in E; simpl in E; try done.
  apply in_range_spec in E. split; [done|]. intros ? [= <-]. done.
Qed.

Lemma data_get_i64_set_ne k k' v d :
  k <> k' -> data_get_i64 k' (data_set k v d) = data_get_i64 k' d.
Proof. intros Hne. unfold data_get_i64, data_set. by rewrite lookup_insert_ne. Qed.

Lemma data_get_i64_set_eq k n d :
  data_get_i64 k (data_set k (VI64 n) d) = Some (Ok n).
Proof. unfold data_get_i64, data_set. by rewrite lookup_insert_eq. Qed.

#[export] Hint Resolve data_wf_empty data_wf_set : storage.
#[export] Hint Rewrite data_get_i64_set_eq : storage_rw.
