(* ===== verification/Auth.v ===== *)
(** * The nonce ledger (src/src/auth.rs)

    [get_nonce], [set_nonce] and [verify_and_consume_nonce] over the
    contract's storage, as computations of the state and error monad on
    [Data].  The abstract specification [consume_spec] sees the ledger as a
    total map from identities to counters ([nonce_view]); the refinement
    theorem shows the storage-level code implements it on well-typed
    storage, and the remaining theorems are its consequences: replay
    rejection, the invoker rule, the frame property and the invariant,
    and the round trip of the counter store. *)

From Stdlib Require Import ZArith Lia.
From stdpp Require Import base list gmap countable.
From S2P Require Import Prelude Soroban Storage.

Local Open Scope Z_scope.

(** ** The code *)

(** [get_nonce] (auth.rs:29-35): the stored counter, 0 when absent. *)
Definition get_nonce (id : Identifier) : SE Data Error Z :=
  d ← se_get;
  se_lift (match data_get_i64 (Nonce id) d with
           | None => Ok 0
           | Some r => r
           end).

(** [set_nonce] (auth.rs:37-40) *)
Definition set_nonce (id : Identifier) (nonce : Z) : SE Data Error unit :=
  d ← se_get;
  se_put (data_set (Nonce id) (VI64 nonce) d).

(** [verify_and_consume_nonce] (auth.rs:12-27).  [nonce + 1] is checked
    [i64] addition. *)
Definition verify_and_consume_nonce (env : Env) (sig : Signature) (nonce : Z)
    : SE Data Error unit :=
  match sig with
  | Invoker => se_assert (nonce =? 0) IncorrectNonceForInvoker
  | SigEd25519 _ | SigAccount _ =>
      let id := sig_identifier env sig in
      stored ← get_nonce id;
      se_assert (nonce =? stored) IncorrectNonce;;
      next ← se_lift (unwrap_or_err Overflow (i64_checked_add nonce 1));
      set_nonce id next
  end.

(** ** The abstract ledger *)

(** The counter of every identity, 0 for those never recorded. *)
Definition nonce_view (d : Data) (id : Identifier) : Z :=
  match d !! Nonce id with Some (VI64 n) => n | _ => 0 end.

Definition view_update (v : Identifier -> Z) (id : Identifier) (n : Z) :
    Identifier -> Z :=
  fun j => if decide (j = id) then n else v j.

(** What the ledger promises (spec section 4.1), with the bound of the
    [i64] counter made explicit. *)
Definition consume_spec (env : Env) (sig : Signature) (claimed : Z)
    (v : Identifier -> Z) : res Error (Identifier -> Z) :=
  match sig with
  | Invoker => if claimed =? 0 then Ok v else Err IncorrectNonceForInvoker
  | _ =>
      let id := sig_identifier env sig in
      if claimed =? v id then
        if claimed <? i64_max then Ok (view_update v id (claimed + 1))
        else Err Overflow
      else Err IncorrectNonce
  end.

(** The abstract ledger returned [Ok v'] and [v'] agrees with [v] at every
    identity. *)
Definition consumed (r : res Error (Identifier -> Z)) (v : Identifier -> Z) : Prop :=
  exists v', r = Ok v' /\ forall j, v' j = v j.

(** What an accepted proof adds to the counter of [id]: 1 for a signed
    proof of [id], nothing for an implicit one (spec section 8). *)
Definition signed_by (env : Env) (sig : Signature) (id : Identifier) : Z :=
  match sig with
  | Invoker => 0
  | _ => if decide (sig_identifier env sig = id) then 1 else 0
  end.

(** ** Fixtures for concrete runs *)

(** An environment for concrete runs: the invoker is the account [7]. *)
Definition env_sample : Env := {|
  ledger_timestamp := 1; network_passphrase := [];
  current_contract := [9]; invoker := InvokerAccount [7];
  account_threshold := fun _ => Some 1; signer_weight := fun _ _ => 1 |}.

Definition sig_sample : Signature :=
  SigEd25519 {| public_key := [1]; signature := [2] |}.

(** ** Lemmas *)

Lemma get_nonce_wf d id :
  data_wf d -> get_nonce id d = (Ok (nonce_view d id), d).
Proof.
  intros Hd. unfold get_nonce, nonce_view. se_unfold.
  pose proof (data_wf_nonce d id Hd) as [Hc _]. revert Hc.
  unfold data_get_i64. destruct (d !! Nonce id) as [[n|b]|]; done.
Qed.

Lemma nonce_view_bounds d id : data_wf d -> 0 <= nonce_view d id <= i64_max.
Proof.
  intros Hd. unfold nonce_view.
  destruct (d !! Nonce id) as [[n|b]|] eqn:E; [|zlia..].
  apply Hd in E. simpl in E. by apply in_range_spec in E.
Qed.

Lemma nonce_view_set d id n j :
  nonce_view (data_set (Nonce id) (VI64 n) d) j = view_update (nonce_view d) id n j.
Proof.
  unfold nonce_view, view_update, data_set.
  destruct (decide (j = id)) as [->|Hne].
  - by rewrite lookup_insert_eq.
  - rewrite lookup_insert_ne; [done|congruence].
Qed.

Lemma get_nonce_preserves id : preserves data_wf (get_nonce id).
Proof. intros d Hd. by unfold get_nonce; se_unfold. Qed.

#[export] Hint Resolve get_nonce_preserves : se_inv.

(** ** Theorems *)

(** The signed branch of [verify_and_consume_nonce], computed on
    well-typed storage. *)
Lemma consume_signed_wf env sig claimed d :
  sig <> Invoker -> data_wf d ->
  verify_and_consume_nonce env sig claimed d =
    let id := sig_identifier env sig in
    if claimed =? nonce_view d id then
      if claimed <? i64_max then (Ok tt, data_set (Nonce id) (VI64 (claimed + 1)) d)
      else (Err Overflow, d)
    else (Err IncorrectNonce, d).
Proof.
  intros Hs Hd. assert (Hb := nonce_view_bounds d (sig_identifier env sig) Hd).
  transitivity
    ((stored ← get_nonce (sig_identifier env sig);
      se_assert (claimed =? stored) IncorrectNonce;;
      next ← se_lift (unwrap_or_err Overflow (i64_checked_add claimed 1));
      set_nonce (sig_identifier env sig) next) d);
    [by destruct sig|].
  rewrite (se_bind_ok _ _ _ _ _ (get_nonce_wf d _ Hd)). simpl.
  destruct (Z.eqb_spec claimed (nonce_view d (sig_identifier env sig))) as [->|]; [|done].
  unfold i64_checked_add. se_unfold.
  destruct (Z.ltb_spec (nonce_view d (sig_identifier env sig)) i64_max).
  - by rewrite checked_add_in by zlia.
  - by rewrite (proj2 (checked_add_None _ _ _ _)) by zlia.
Qed.

(** The proof of [verify_and_consume_nonce_refines], shared with the other proofs. *)
Lemma consume_refines env sig claimed d r d' :
  data_wf d ->
  verify_and_consume_nonce env sig claimed d = (r, d') ->
  (forall k, k <> Nonce (sig_identifier env sig) -> d' !! k = d !! k) /\
  match consume_spec env sig claimed (nonce_view d) with
  | Ok v' => r = Ok tt /\ forall j, nonce_view d' j = v' j
  | Err e => r = Err e /\ d' = d
  end.
Proof.
  intros Hd Hrun. destruct (decide (sig = Invoker)) as [->|Hs].
  { simpl in *. se_unfold. by destruct (claimed =? 0); simplify_eq. }
  rewrite consume_signed_wf in Hrun by done.
  replace (consume_spec env sig claimed (nonce_view d)) with
    (let id := sig_identifier env sig in
     if claimed =? nonce_view d id then
       if claimed <? i64_max then Ok (view_update (nonce_view d) id (claimed + 1))
       else Err Overflow
     else Err IncorrectNonce) by (by destruct sig).
  simpl in *. destruct (claimed =? _); [|by simplify_eq].
  destruct (claimed <? i64_max); simplify_eq; [|done].
  split; [|split; [done|apply nonce_view_set]].
  intros k Hk. unfold data_set. by rewrite lookup_insert_ne.
Qed.

(** C5: [verify_and_consume_nonce] refines the abstract ledger: on
    well-typed storage it succeeds exactly when [consume_spec] does, the
    counters afterwards are those of the specification, no other key of
    the storage changes, and on failure the storage is unchanged. *)
Theorem verify_and_consume_nonce_refines env sig claimed d r d' :
  data_wf d ->
  verify_and_consume_nonce env sig claimed d = (r, d') ->
  (forall k, k <> Nonce (sig_identifier env sig) -> d' !! k = d !! k) /\
  match consume_spec env sig claimed (nonce_view d) with
  | Ok v' => r = Ok tt /\ forall j, nonce_view d' j = v' j
  | Err e => r = Err e /\ d' = d
  end.
Proof. intros. by eapply consume_refines. Qed.

(** The proof of [verify_and_consume_nonce_preserves], shared with the other proofs. *)
Lemma consume_preserves env sig n :
  preserves data_wf (verify_and_consume_nonce env sig n).
Proof.
  intros d Hd. destruct (decide (sig = Invoker)) as [->|Hs].
  { simpl. se_unfold. by destruct (n =? 0). }
  rewrite consume_signed_wf by done. simpl.
  destruct (Z.eqb_spec n (nonce_view d (sig_identifier env sig))) as [->|]; [|done].
  destruct (Z.ltb_spec (nonce_view d (sig_identifier env sig)) i64_max); [|done].
  apply data_wf_set; [done|]. apply in_range_spec.
  pose proof (nonce_view_bounds d (sig_identifier env sig) Hd). lia.
Qed.

(** C6: [verify_and_consume_nonce] keeps the storage well typed, whether
    it returns or aborts: every nonce it writes is an [i64] in
    [0, i64::MAX]. *)
Theorem verify_and_consume_nonce_preserves env sig n :
  preserves data_wf (verify_and_consume_nonce env sig n).
Proof. apply consume_preserves. Qed.

(** C7: a signed nonce is usable once: after [verify_and_consume_nonce]
    accepted [n] for a signed proof, presenting the same proof with the
    same [n] again aborts with [IncorrectNonce]. *)
Theorem verify_and_consume_nonce_no_replay env sig n d d' :
  sig <> Invoker -> data_wf d ->
  verify_and_consume_nonce env sig n d = (Ok tt, d') ->
  verify_and_consume_nonce env sig n d' = (Err IncorrectNonce, d').
Proof.
  intros Hs Hd Hrun.
  assert (Hd' : data_wf d').
  { change d' with (snd (@Ok Error unit tt, d')). rewrite <- Hrun.
    by apply consume_preserves. }
  rewrite consume_signed_wf in Hrun |- * by done. simpl in *.
  destruct (Z.eqb_spec n (nonce_view d (sig_identifier env sig))) as [->|]; [|done].
  destruct (_ <? _); simplify_eq.
  rewrite nonce_view_set. unfold view_update. rewrite decide_True by done.
  by rewrite (proj2 (Z.eqb_neq _ _)) by lia.
Qed.

(** ** Witnesses *)

Lemma verify_and_consume_nonce_refines_witness :
  (forall k, k <> Nonce (Ed25519 [1]) ->
     ({[Nonce (Ed25519 [1]) := VI64 1]} : Data) !! k = (∅ : Data) !! k) /\
  (@Ok Error unit tt = Ok tt /\ forall j, nonce_view {[Nonce (Ed25519 [1]) := VI64 1]} j =
                              view_update (nonce_view ∅) (Ed25519 [1]) 1 j).
Proof.
  exact (verify_and_consume_nonce_refines env_sample sig_sample 0 ∅ (Ok tt)
           {[Nonce (Ed25519 [1]) := VI64 1]} data_wf_empty eq_refl).
Defined.

Lemma verify_and_consume_nonce_no_replay_witness :
  verify_and_consume_nonce env_sample sig_sample 0 {[Nonce (Ed25519 [1]) := VI64 1]} =
  (Err IncorrectNonce, {[Nonce (Ed25519 [1]) := VI64 1]}).
Proof.
  apply (verify_and_consume_nonce_no_replay env_sample sig_sample 0 ∅);
    [discriminate | apply data_wf_empty | reflexivity].
Defined.

(** The two directions of the refinement used by the contract's proofs. *)
Lemma verify_and_consume_nonce_Ok env sig claimed d d' :
  data_wf d -> verify_and_consume_nonce env sig claimed d = (Ok tt, d') ->
  consumed (consume_spec env sig claimed (nonce_view d)) (nonce_view d') /\
  (forall k, (forall id, k <> Nonce id) -> d' !! k = d !! k) /\ data_wf d'.
Proof.
  intros Hd Hrun.
  assert (Hwf : data_wf d').
  { change d' with (snd (@Ok Error unit tt, d')). rewrite <- Hrun.
    by apply consume_preserves. }
  pose proof (consume_refines env sig claimed d _ _ Hd Hrun) as [Hfr Hsp].
  split; [|split; [intros k Hk; apply Hfr, Hk|done]].
  destruct (consume_spec _ _ _ _) as [v'|e]; [|by destruct Hsp].
  destruct Hsp as [_ Hv]. exists v'. split; [done|]. intros j. by rewrite Hv.
Qed.

Lemma verify_and_consume_nonce_complete env sig claimed d v :
  data_wf d -> consumed (consume_spec env sig claimed (nonce_view d)) v ->
  exists d', verify_and_consume_nonce env sig claimed d = (Ok tt, d') /\
             forall j, nonce_view d' j = v j.
Proof.
  intros Hd (v' & Hspec & Hv).
  destruct (verify_and_consume_nonce env sig claimed d) as [r d'] eqn:Hrun.
  pose proof (consume_refines env sig claimed d _ _ Hd Hrun) as [_ Hsp].
  rewrite Hspec in Hsp. destruct Hsp as [-> Hview].
  exists d'. split; [done|]. intros j. by rewrite Hview.
Qed.

(** What an accepted consumption does to the abstract ledger. *)
Lemma consume_spec_Ok env sig n v v' :
  consume_spec env sig n v = Ok v' ->
  (sig = Invoker /\ n = 0 /\ v' = v) \/
  (sig <> Invoker /\ n = v (sig_identifier env sig) /\ n < i64_max /\
   v' = view_update v (sig_identifier env sig) (n + 1)).
Proof.
  destruct (decide (sig = Invoker)) as [->|Hs].
  - simpl. destruct (Z.eqb_spec n 0); intros; simplify_eq; auto.
  - replace (consume_spec env sig n v) with
      (if n =? v (sig_identifier env sig) then
         if n <? i64_max then Ok (view_update v (sig_identifier env sig) (n + 1))
         else Err Overflow
       else Err IncorrectNonce) by (by destruct sig).
    destruct (Z.eqb_spec n (v (sig_identifier env sig))); [|done].
    destruct (Z.ltb_spec n i64_max); [|done]. intros [= <-]. right. auto.
Qed.

Lemma signed_by_bounds env sig j : 0 <= signed_by env sig j <= 1.
Proof. unfold signed_by. destruct sig; [lia|..]; case_decide; lia. Qed.

(** An accepted consumption advances exactly the signer's counter, by one,
    and only for a signed proof. *)
Lemma consumed_view env sig n v u :
  consumed (consume_spec env sig n v) u -> forall j, u j = v j + signed_by env sig j.
Proof.
  intros (v' & Hc & Hu) j. rewrite <- Hu.
  apply consume_spec_Ok in Hc as [(-> & _ & ->)|(Hs & -> & _ & ->)]; [simpl; lia|].
  unfold view_update, signed_by.
  destruct sig; [done|..]; case_decide; case_decide; subst; try congruence; lia.
Qed.

(** [consume_spec] only reads the ledger pointwise. *)
Lemma consumed_pointwise env sig n v1 v2 u :
  (forall j, v1 j = v2 j) ->
  consumed (consume_spec env sig n v1) u -> consumed (consume_spec env sig n v2) u.
Proof.
  intros Hv (v' & Hc & Hu). apply consume_spec_Ok in Hc as [(-> & -> & ->)|(Hs & -> & Hlt & ->)].
  - exists v2. split; [done|]. intros j. by rewrite <- Hv.
  - exists (view_update v2 (sig_identifier env sig) (v1 (sig_identifier env sig) + 1)).
    split.
    + replace (consume_spec env sig _ v2) with
        (let id := sig_identifier env sig in
         if v1 id =? v2 id then
           if v1 id <? i64_max then Ok (view_update v2 id (v1 id + 1)) else Err Overflow
         else Err IncorrectNonce) by (by destruct sig).
      simpl. rewrite Hv, Z.eqb_refl, <- Hv. by rewrite (proj2 (Z.ltb_lt _ _)).
    + intros j. rewrite <- Hu. unfold view_update. case_decide; auto.
Qed.

(** Consumption never decreases a counter. *)
Lemma consume_spec_mono env sig n v v' :
  consume_spec env sig n v = Ok v' -> forall j, v j <= v' j.
Proof.
  intros Hc j. apply consume_spec_Ok in Hc as [(_ & _ & ->)|(_ & -> & _ & ->)]; [lia|].
  unfold view_update. case_decide; subst; lia.
Qed.

Lemma consumed_mono env sig n v u :
  consumed (consume_spec env sig n v) u -> forall j, v j <= u j.
Proof. intros (v' & Hc & Hu) j. rewrite <- Hu. by eapply consume_spec_mono. Qed.

(** On well-typed storage, the two consumptions of a battle commute when
    each claims the counter its identity had before either ran: both
    orders succeed together and end in the same storage.  Two signed proofs
    of one identity never both pass, since the first advances the counter
    the second claims. *)
Lemma consume_commute env s1 s2 d d1 d2 :
  data_wf d ->
  let n1 := nonce_view d (sig_identifier env s1) in
  let n2 := nonce_view d (sig_identifier env s2) in
  verify_and_consume_nonce env s1 n1 d = (Ok tt, d1) ->
  verify_and_consume_nonce env s2 n2 d1 = (Ok tt, d2) ->
  exists d1', verify_and_consume_nonce env s2 n2 d = (Ok tt, d1') /\
              verify_and_consume_nonce env s1 n1 d1' = (Ok tt, d2).
Proof.
  intros Hd n1 n2 H1 H2.
  assert (Hwf1 : data_wf d1).
  { change d1 with (snd (@Ok Error unit tt, d1)). rewrite <- H1. by apply consume_preserves. }
  destruct (decide (s1 = Invoker)) as [->|Hs1].
  { simpl in H1 |- *. se_unfold. destruct (n1 =? 0); [injection H1 as <-|done].
    exists d2. by rewrite H2. }
  rewrite consume_signed_wf in H1 by done. cbv zeta in H1. subst n1.
  rewrite Z.eqb_refl in H1. destruct (_ <? i64_max) eqn:Hlt1; [|done].
  injection H1 as <-.
  destruct (decide (s2 = Invoker)) as [->|Hs2].
  { simpl in H2 |- *. se_unfold. destruct (n2 =? 0); [injection H2 as <-|done].
    eexists. split; [done|]. rewrite consume_signed_wf by done. cbv zeta. by rewrite Z.eqb_refl, Hlt1. }
  rewrite consume_signed_wf in H2 |- * by done.
  cbv zeta in H2 |- *. subst n2.
  destruct (decide (sig_identifier env s1 = sig_identifier env s2)) as [Heq|Hne].
  { rewrite <- Heq, nonce_view_set in H2. unfold view_update in H2.
    rewrite decide_True in H2 by done.
    by rewrite (proj2 (Z.eqb_neq _ _)) in H2 by lia. }
  rewrite nonce_view_set in H2. unfold view_update in H2.
  rewrite decide_False, Z.eqb_refl in H2 by congruence.
  rewrite Z.eqb_refl.
  destruct (nonce_view d (sig_identifier env s2) <? i64_max) eqn:Hlt2; [|done].
  injection H2 as <-. eexists. split; [done|].
  rewrite consume_signed_wf; [|done|].
  2:{ apply data_wf_set; [done|]. apply in_range_spec.
      pose proof (nonce_view_bounds d (sig_identifier env s2) Hd). apply Z.ltb_lt in Hlt2. lia. }
  cbv zeta. rewrite nonce_view_set. unfold view_update. rewrite decide_False, Z.eqb_refl, Hlt1 by congruence.
  f_equal. unfold data_set. apply insert_insert_ne. congruence.
Qed.

Lemma verify_and_consume_nonce_preserves_witness :
  data_wf (snd (verify_and_consume_nonce env_sample sig_sample 0 ∅)).
Proof. apply (verify_and_consume_nonce_preserves env_sample sig_sample 0 ∅). apply data_wf_empty. Defined.
