(* ===== verification/TokenLedger.v ===== *)
(** * The token contract the battle escrows stakes with

    The contract calls a token contract imported from
    [token/soroban_token_spec.wasm] (src/src/lib.rs:11-13): [xfer_from] to
    pull each stake into escrow and [xfer] to pay the winner.  That
    contract is not source code of the repository, so it enters as an
    interface: [TokenLedger] gives the operations, [TokenLedgerLaws] what
    the battle relies on (how balances and allowances move, and when a
    transfer is accepted).  [SimpleToken] is a model of the token from the
    specification (balances and allowances in finite maps, the checks of
    the standard token) that discharges the laws, so that the interface
    is satisfiable and concrete runs can be computed. *)

From Stdlib Require Import ZArith Lia.
From stdpp Require Import base list gmap countable.
From S2P Require Import Prelude Soroban.

Local Open Scope Z_scope.

(** The completed token calls, in the order they were made. *)
Inductive TokenCall :=
| CallXferFrom (token : bytes) (spender from to : Identifier) (amount : Z)
| CallXfer (token : bytes) (from to : Identifier) (amount : Z).

#[export] Instance TokenCall_eq_dec : EqDecision TokenCall.
Proof. solve_decision. Defined.

(** ** The interface *)
Class TokenLedger (T : Type) := {
  tk_balance : T -> Identifier -> Z;
  tk_allowance : T -> Identifier -> Identifier -> Z;   (** from, spender *)
  tk_xfer : T -> Identifier -> Identifier -> Z -> res TokenError T;
  tk_xfer_from : T -> Identifier -> Identifier -> Identifier -> Z -> res TokenError T
}.

(** The balance change of [id] when [a] moves from [from] to [to]. *)
Definition moved (from to id : Identifier) (a : Z) : Z :=
  (if decide (id = to) then a else 0) - (if decide (id = from) then a else 0).

Class TokenLedgerLaws (T : Type) `{TokenLedger T} := {
  xfer_balance t t' from to a id :
    tk_xfer t from to a = Ok t' ->
    tk_balance t' id = tk_balance t id + moved from to id a;
  xfer_from_balance t t' sp from to a id :
    tk_xfer_from t sp from to a = Ok t' ->
    tk_balance t' id = tk_balance t id + moved from to id a;
  xfer_from_allowance t t' sp from to a f s :
    tk_xfer_from t sp from to a = Ok t' ->
    tk_allowance t' f s = tk_allowance t f s - (if decide ((f, s) = (from, sp)) then a else 0);
  xfer_accepts t from to a :
    0 <= a <= tk_balance t from -> exists t', tk_xfer t from to a = Ok t';
  xfer_from_accepts t sp from to a :
    0 <= a <= tk_balance t from -> a <= tk_allowance t from sp ->
    exists t', tk_xfer_from t sp from to a = Ok t'
}.

(** ** A token modelled from the specification *)
Module SimpleToken.

Record state := {
  balances : gmap Identifier Z;
  allowances : gmap (Identifier * Identifier) Z   (** (from, spender) *)
}.

Definition balance (t : state) (id : Identifier) : Z :=
  default 0 (balances t !! id).

Definition allowance (t : state) (from spender : Identifier) : Z :=
  default 0 (allowances t !! (from, spender)).

Definition set_balance (t : state) (id : Identifier) (v : Z) : state :=
  {| balances := <[id := v]> (balances t); allowances := allowances t |}.

Definition set_allowance (t : state) (from spender : Identifier) (v : Z) : state :=
  {| balances := balances t; allowances := <[(from, spender) := v]> (allowances t) |}.

(** [spend_balance] then [receive_balance]. *)
Definition xfer (t : state) (from to : Identifier) (a : Z) : res TokenError state :=
  if a <? 0 then Err TkNegativeAmount
  else if balance t from <? a then Err TkInsufficientBalance
  else let t1 := set_balance t from (balance t from - a) in
       Ok (set_balance t1 to (balance t1 to + a)).

Definition xfer_from (t : state) (spender from to : Identifier) (a : Z)
    : res TokenError state :=
  if a <? 0 then Err TkNegativeAmount
  else if allowance t from spender <? a then Err TkInsufficientAllowance
  else xfer (set_allowance t from spender (allowance t from spender - a)) from to a.

(** Administration used by the repository's tests. *)
Definition mint (t : state) (to : Identifier) (a : Z) : res TokenError state :=
  if a <? 0 then Err TkNegativeAmount else Ok (set_balance t to (balance t to + a)).

Definition approve (t : state) (from spender : Identifier) (a : Z) : res TokenError state :=
  if a <? 0 then Err TkNegativeAmount else Ok (set_allowance t from spender a).

#[export] Instance ledger : TokenLedger state := {
  tk_balance := balance; tk_allowance := allowance;
  tk_xfer := xfer; tk_xfer_from := xfer_from }.

Lemma balance_set t id v j :
  balance (set_balance t id v) j = if decide (j = id) then v else balance t j.
Proof.
  unfold balance, set_balance. simpl.
  destruct (decide (j = id)) as [->|]; [by rewrite lookup_insert_eq|].
  by rewrite lookup_insert_ne.
Qed.

Lemma balance_set_allowance t f s v j :
  balance (set_allowance t f s v) j = balance t j.
Proof. done. Qed.

Lemma allowance_set_balance t id v f s :
  allowance (set_balance t id v) f s = allowance t f s.
Proof. done. Qed.

Lemma allowance_set t f s v f' s' :
  allowance (set_allowance t f s v) f' s' =
    if decide ((f', s') = (f, s)) then v else allowance t f' s'.
Proof.
  unfold allowance, set_allowance. simpl.
  destruct (decide ((f', s') = (f, s))) as [->|]; [by rewrite lookup_insert_eq|].
  by rewrite lookup_insert_ne.
Qed.

Lemma xfer_ok t t' from to a :
  xfer t from to a = Ok t' ->
  0 <= a <= balance t from /\
  (forall id, balance t' id = balance t id + moved from to id a) /\
  (forall f s, allowance t' f s = allowance t f s).
Proof.
  unfold xfer. destruct (Z.ltb_spec a 0); [done|].
  destruct (Z.ltb_spec (balance t from) a); [done|]. intros [= <-].
  split; [lia|]. split; [|done].
  intros id. unfold moved. rewrite !balance_set.
  repeat case_decide; subst; try congruence; lia.
Qed.

Lemma laws : TokenLedgerLaws state.
Proof.
  split; simpl.
  - intros t t' from to a id H. by apply xfer_ok in H as (_ & -> & _).
  - intros t t' sp from to a id. unfold xfer_from.
    destruct (a <? 0); [done|]. destruct (_ <? a); [done|].
    intros H. apply xfer_ok in H as (_ & -> & _). by rewrite balance_set_allowance.
  - intros t t' sp from to a f s. unfold xfer_from.
    destruct (Z.ltb_spec a 0); [done|]. destruct (_ <? a); [done|].
    intros Hx. apply xfer_ok in Hx as (_ & _ & ->). rewrite allowance_set.
    case_decide as Hfs; [injection Hfs as -> ->; lia|lia].
  - intros t from to a Ha. unfold xfer.
    destruct (Z.ltb_spec a 0); [lia|]. destruct (Z.ltb_spec (balance t from) a); [lia|].
    by eexists.
  - intros t sp from to a Ha Hal. unfold xfer_from.
    destruct (Z.ltb_spec a 0); [lia|]. destruct (Z.ltb_spec (allowance t from sp) a); [lia|].
    unfold xfer. rewrite balance_set_allowance.
    destruct (Z.ltb_spec a 0); [lia|]. destruct (Z.ltb_spec (balance t from) a); [lia|].
    by eexists.
Qed.

#[export] Existing Instance laws.

End SimpleToken.
