(* ===== verification/ByteBattle.v ===== *)
(** * The Byte Battle contract (src/src/lib.rs)

    The four entry points [initialize], [battle], [nonce] and [token] and
    the helper [get_token], over a [World]: the contract's storage, the
    token contracts by address, and the log of completed token calls.
    [battle] is a computation of the state and error monad that follows
    lines 48-125 call for call; the token calls go through the
    [TokenLedger] interface, signature checks through [soroban_auth]'s
    [verify] (Soroban.v), nonces through the nonce ledger (Auth.v).

    The theorems show what a successful battle does (both nonces consumed,
    both stakes escrowed, then exactly one payout), that the two tiebreak
    keys and indices it computes are always equal, so that player 2 is
    always paid, the bounds of the compare index, the rejection of
    mismatched terms and of replays (Ed25519 and account proofs), the
    symmetry of the authorization phase, the lock-out of an invoker whose
    counter has moved, the account check against its reference, and the
    well-typedness invariant. *)

From Stdlib Require Import ZArith Lia String.
From stdpp Require Import base list gmap countable strings.
From S2P Require Import Prelude Soroban Storage Auth TokenLedger.

Local Open Scope Z_scope.

(** [Bytes::get]: the byte at a [u32] index, if any. *)
Definition bytes_get (b : bytes) (i : Z) : option Z :=
  if 0 <=? i then b !! Z.to_nat i else None.

(** [(e.ledger().timestamp() % 32) as u32] (lines 84-85). *)
Definition compare_base (env : Env) : Z := ledger_timestamp env mod 32.

Section ByteBattle.
Context {T : Type} `{TokenLedger T} `{SigScheme} `{AccountSerialize}.

Record World := {
  w_data : Data;
  w_tokens : gmap bytes T;
  w_log : list TokenCall
}.

Definition set_data (d : Data) (w : World) : World :=
  {| w_data := d; w_tokens := w_tokens w; w_log := w_log w |}.

(** A computation on the contract's storage, run inside an invocation. *)
Definition on_data {A} (m : SE Data Error A) : SE World Error A :=
  se_focus w_data set_data m.

(** A call into the token contract at [tok]: it either completes, updating
    that contract's state and the log, or aborts the invocation. *)
Definition token_call (tok : bytes) (f : T -> res TokenError T) (c : TokenCall)
    : SE World Error unit :=
  fun w =>
    match w_tokens w !! tok with
    | None => (Err (TokenFailed TkNoContract), w)
    | Some t =>
        match f t with
        | Ok t' => (Ok tt, {| w_data := w_data w; w_tokens := <[tok := t']> (w_tokens w);
                             w_log := w_log w ++ [c] |})
        | Err e => (Err (TokenFailed e), w)
        end
    end.

(** [token.xfer_from(&Signature::Invoker, &BigInt::zero(&e), from, to, amount)]:
    the spender is the invoker of the token call, this contract. *)
Definition client_xfer_from (env : Env) (tok : bytes) (from to : Identifier) (amount : Z)
    : SE World Error unit :=
  let me := Contract (current_contract env) in
  token_call tok (fun t => tk_xfer_from t me from to amount)
    (CallXferFrom tok me from to amount).

(** [token.xfer(&Signature::Invoker, &BigInt::zero(&e), to, amount)] *)
Definition client_xfer (env : Env) (tok : bytes) (to : Identifier) (amount : Z)
    : SE World Error unit :=
  let me := Contract (current_contract env) in
  token_call tok (fun t => tk_xfer t me to amount) (CallXfer tok me to amount).

(** [get_token] (lines 136-138): [e.data().get(DataKey::Token).unwrap().unwrap()] *)
Definition get_token : SE Data Error bytes :=
  d ← se_get;
  se_lift (match data_get_bytes32 Token d with
           | None => Err UnwrapNone
           | Some r => r
           end).

(** [initialize] (lines 35-40) *)
Definition initialize (token_address : bytes) : SE Data Error unit :=
  d ← se_get;
  if data_has Token d then mthrow AlreadyInitialized
  else se_put (data_set Token (VBytes token_address) d).

(** [nonce] (lines 128-130) and [token] (lines 131-133) *)
Definition nonce (user : Identifier) : SE Data Error Z := get_nonce user.
Definition token : SE Data Error bytes := get_token.

(** The tiebreak key and compare index of an identity: the match of
    lines 86-93 (and 94-101), [+= 16] on a [u32] for an account. *)
Definition player_key (id : Identifier) (idx : Z) : res Error (bytes * Z) :=
  match id with
  | Account a =>
      res_bind (unwrap_or_err Overflow (u32_checked_add idx 16))
        (fun i => Ok (serialize_account a, i))
  | Contract k => Ok (k, idx)
  | Ed25519 k => Ok (k, idx)
  end.

(** The signed arguments of a battle, for the side of [me]. *)
Definition battle_args (me : Identifier) (n : Z) (other : Identifier) (amount : Z)
    : list ArgVal :=
  [AId me; AI64 n; AId other; ABigInt amount].

(** The authorization phase of [battle] (lines 48-66): read both nonces,
    then verify and consume player 1's proof, then player 2's.  It returns
    the two signer identities. *)
Definition authorize (env : Env) (player1_sig player2_sig : Signature) (amount : Z)
    : SE World Error (Identifier * Identifier) :=
  let signer1_id := sig_identifier env player1_sig in
  let signer2_id := sig_identifier env player2_sig in
  p1_nonce ← on_data (get_nonce signer1_id);
  p2_nonce ← on_data (get_nonce signer2_id);
  se_lift (verify env player1_sig "battle" (battle_args signer1_id p1_nonce signer2_id amount));;
  on_data (verify_and_consume_nonce env player1_sig p1_nonce);;
  se_lift (verify env player2_sig "battle" (battle_args signer2_id p2_nonce signer1_id amount));;
  on_data (verify_and_consume_nonce env player2_sig p2_nonce);;
  mret (signer1_id, signer2_id).

(** [battle] (lines 42-126).  Both keys are computed by matching on
    [signer1_id], as lines 86 and 94 do. *)
Definition battle (env : Env) (player1_sig player2_sig : Signature) (amount : Z)
    : SE World Error (bytes * bytes * Z * Z) :=
  '(signer1_id, signer2_id) ← authorize env player1_sig player2_sig amount;
  tok ← on_data get_token;
  let me := Contract (current_contract env) in
  client_xfer_from env tok signer1_id me amount;;
  client_xfer_from env tok signer2_id me amount;;
  '(player1_key, player1_byte_to_compare) ← se_lift (player_key signer1_id (compare_base env));
  '(player2_key, player2_byte_to_compare) ← se_lift (player_key signer1_id (compare_base env));
  b1 ← se_lift (unwrap_or_err UnwrapNone (bytes_get player1_key player1_byte_to_compare));
  b2 ← se_lift (unwrap_or_err UnwrapNone (bytes_get player2_key player2_byte_to_compare));
  (if b2 <? b1 then client_xfer env tok signer1_id (amount * 2)
   else client_xfer env tok signer2_id (amount * 2));;
  mret (player1_key, player2_key, player1_byte_to_compare, player2_byte_to_compare).

(** The contract's storage is well typed. *)
Definition world_wf (w : World) : Prop := data_wf (w_data w).

(** ** The abstract contest

    What a successful [battle] amounts to: both proofs verify over the
    messages built from the stored nonces, the abstract nonce ledger
    accepts both consumptions (B's claimed nonce being the one read before
    A's was consumed), the stored token contract accepts the two escrow
    transfers and then the payout of twice the stake to player 2, and the
    result is the key and index of player 1 twice. *)
Definition battle_spec (env : Env) (s1 s2 : Signature) (amount : Z) (w : World)
    (r : bytes * bytes * Z * Z) (w' : World) : Prop :=
  let id1 := sig_identifier env s1 in
  let id2 := sig_identifier env s2 in
  let n1 := nonce_view (w_data w) id1 in
  let n2 := nonce_view (w_data w) id2 in
  let me := Contract (current_contract env) in
  verify env s1 "battle" (battle_args id1 n1 id2 amount) = Ok tt /\
  verify env s2 "battle" (battle_args id2 n2 id1 amount) = Ok tt /\
  exists v1 tok t0 t1 t2 t3 key idx,
    consumed (consume_spec env s1 n1 (nonce_view (w_data w))) v1 /\
    consumed (consume_spec env s2 n2 v1) (nonce_view (w_data w')) /\
    (forall k, (forall id, k <> Nonce id) -> w_data w' !! k = w_data w !! k) /\
    data_get_bytes32 Token (w_data w) = Some (Ok tok) /\
    w_tokens w !! tok = Some t0 /\
    tk_xfer_from t0 me id1 me amount = Ok t1 /\
    tk_xfer_from t1 me id2 me amount = Ok t2 /\
    tk_xfer t2 me id2 (amount * 2) = Ok t3 /\
    w_tokens w' = <[tok := t3]> (w_tokens w) /\
    w_log w' = w_log w ++ [CallXferFrom tok me id1 me amount;
                           CallXferFrom tok me id2 me amount;
                           CallXfer tok me id2 (amount * 2)] /\
    player_key id1 (compare_base env) = Ok (key, idx) /\
    is_Some (bytes_get key idx) /\
    r = (key, key, idx, idx).

End ByteBattle.

Arguments World T : clear implicits.

Section ByteBattle_facts.
Context {T : Type} `{TokenLedger T} `{SigScheme} `{AccountSerialize}.

Lemma on_data_Ok_inv {A} (m : SE Data Error A) (w w' : World T) a :
  on_data m w = (Ok a, w') -> exists d', m (w_data w) = (Ok a, d') /\ w' = set_data d' w.
Proof.
  unfold on_data, se_focus. destruct (m (w_data w)) as [r d'] eqn:E.
  intros [= -> <-]. by exists d'.
Qed.

Lemma token_call_Ok_inv tok f c (w w' : World T) u :
  token_call tok f c w = (Ok u, w') ->
  exists t t', w_tokens w !! tok = Some t /\ f t = Ok t' /\
    w' = {| w_data := w_data w; w_tokens := <[tok := t']> (w_tokens w);
            w_log := w_log w ++ [c] |}.
Proof.
  unfold token_call. destruct (w_tokens w !! tok) as [t|] eqn:Et; [|done].
  destruct (f t) as [t'|] eqn:Ef; [|done]. intros [= _ <-]. by exists t, t'.
Qed.

Lemma get_token_Ok_inv d d' tok :
  get_token d = (Ok tok, d') -> d' = d /\ data_get_bytes32 Token d = Some (Ok tok).
Proof.
  unfold get_token. se_unfold.
  destruct (data_get_bytes32 Token d) as [[b|e]|]; intros [=]; subst; done.
Qed.

Lemma get_nonce_Ok_inv d d' id n :
  data_wf d -> get_nonce id d = (Ok n, d') -> n = nonce_view d id /\ d' = d.
Proof. intros Hd. rewrite get_nonce_wf by done. by intros [= -> ->]. Qed.

End ByteBattle_facts.

(** Decompose a successful run of a contract computation into its steps. *)
Ltac run_inv :=
  repeat match goal with
  | H : mbind _ _ _ = (Ok _, _) |- _ =>
      let a := fresh "a" in let s := fresh "s" in let Hm := fresh "Hm" in
      apply se_bind_Ok_inv in H as (a & s & Hm & H)
  | H : se_lift _ _ = (Ok _, _) |- _ => apply se_lift_Ok_inv in H as [? ?]; subst
  | H : on_data _ _ = (Ok _, _) |- _ =>
      let Hd := fresh "Hd" in apply on_data_Ok_inv in H as (? & Hd & ?); subst
  | H : token_call _ _ _ _ = (Ok _, _) |- _ =>
      let Ht := fresh "Ht" in let Hf := fresh "Hf" in
      apply token_call_Ok_inv in H as (? & ? & Ht & Hf & ?); subst
  | H : client_xfer_from _ _ _ _ _ _ = _ |- _ => unfold client_xfer_from in H
  | H : client_xfer _ _ _ _ _ = _ |- _ => unfold client_xfer in H
  | H : get_token _ = (Ok _, _) |- _ =>
      let Hg := fresh "Hg" in apply get_token_Ok_inv in H as [? Hg]; subst
  | H : (match ?p with (_, _) => _ end) _ = _ |- _ => destruct p; cbn beta iota in H
  | H : mret _ _ = (Ok _, _) |- _ => cbv [mret SE_ret] in H; injection H as ? ?; subst
  | _ => progress cbn [w_data w_tokens w_log set_data] in *
  end.

(** Decompose a successful [battle]: the two key computations are the same
    call, so the compared bytes are equal and the payout branch is the
    second one. *)
Ltac battle_run_inv H :=
  unfold battle, authorize in H; run_inv;
  match goal with
  | H1 : player_key ?i ?b = Ok _, H2 : player_key ?i ?b = Ok _ |- _ =>
      rewrite H1 in H2; injection H2 as <- <-
  end;
  match goal with
  | H1 : unwrap_or_err _ ?o = Ok _, H2 : unwrap_or_err _ ?o = Ok _ |- _ =>
      rewrite H1 in H2; injection H2 as <-
  end;
  rewrite Z.ltb_irrefl in *; run_inv.

Section ByteBattle_theorems.
Context {T : Type} `{TokenLedger T} `{SigScheme} `{AccountSerialize}.

(** C1: whatever the two players' keys, a successful [battle] makes exactly
    three token calls, in this order: the escrow of player 1's stake, the
    escrow of player 2's stake, and the payout of twice the stake to
    player 2.  Player 2 is always paid, because both tiebreak keys are
    derived from [signer1_id] (src/src/lib.rs:86 and :94). *)
Theorem battle_pays_player2 env s1 s2 amount (w w' : World T) r :
  battle env s1 s2 amount w = (Ok r, w') ->
  exists tok,
    let me := Contract (current_contract env) in
    w_log w' = w_log w ++ [CallXferFrom tok me (sig_identifier env s1) me amount;
                           CallXferFrom tok me (sig_identifier env s2) me amount;
                           CallXfer tok me (sig_identifier env s2) (amount * 2)].
Proof. intros Hrun. battle_run_inv Hrun. eexists. by rewrite <- !app_assoc. Qed.

(** The proof of [battle_keys_coincide], shared with the other proofs. *)
Lemma battle_run_keys env s1 s2 amount (w w' : World T) k1 k2 i1 i2 :
  battle env s1 s2 amount w = (Ok (k1, k2, i1, i2), w') ->
  k1 = k2 /\ i1 = i2 /\
  player_key (sig_identifier env s1) (compare_base env) = Ok (k1, i1).
Proof. intros Hrun. battle_run_inv Hrun. by simplify_eq. Qed.

(** C2: the two tiebreak keys and the two compare indices a successful
    [battle] returns are equal: both are player 1's. *)
Theorem battle_keys_coincide env s1 s2 amount (w w' : World T) k1 k2 i1 i2 :
  battle env s1 s2 amount w = (Ok (k1, k2, i1, i2), w') ->
  k1 = k2 /\ i1 = i2 /\
  player_key (sig_identifier env s1) (compare_base env) = Ok (k1, i1).
Proof. intros Hrun. by eapply battle_run_keys. Qed.

(** The proof of [battle_refines], shared with the other proofs. *)
Lemma battle_run_spec env s1 s2 amount (w w' : World T) r :
  data_wf (w_data w) ->
  battle env s1 s2 amount w = (Ok r, w') ->
  battle_spec env s1 s2 amount w r w'.
Proof.
  intros Hwf Hrun. battle_run_inv Hrun.
  rewrite lookup_insert_eq in Ht, Ht1. injection Ht as <-. injection Ht1 as <-.
  apply get_nonce_Ok_inv in Hd2 as [-> ->]; [|done].
  apply get_nonce_Ok_inv in Hd1 as [-> ->]; [|done].
  destruct a2, a3, a4, a5.
  apply verify_and_consume_nonce_Ok in Hd0 as (Hc1 & Hfr1 & Hwf1); [|done].
  apply verify_and_consume_nonce_Ok in Hd as (Hc2 & Hfr2 & Hwf2); [|done].
  assert (Hfr : forall k, (forall id, k <> Nonce id) -> x !! k = w_data w !! k).
  { intros k Hk. by rewrite Hfr2, Hfr1. }
  split; [done|]. split; [done|].
  exists (nonce_view x0), a, x6, x7, x5, x8, l, z.
  unfold data_get_bytes32 in *. rewrite Hfr in Hg by done.
  destruct (bytes_get l z) eqn:Hb; [|done].
  rewrite !insert_insert_eq, <- !app_assoc. naive_solver.
Qed.

(** C3: [battle] refines the abstract contest [battle_spec]: on well-typed
    storage, a successful run verified both proofs over the messages built
    from the stored nonces, consumed both nonces as the abstract ledger
    prescribes, changed no other storage key, escrowed both stakes with the
    configured token, paid player 2 and returned player 1's key twice. *)
Theorem battle_refines env s1 s2 amount (w w' : World T) r :
  data_wf (w_data w) ->
  battle env s1 s2 amount w = (Ok r, w') ->
  battle_spec env s1 s2 amount w r w'.
Proof. intros. by apply battle_run_spec. Qed.

End ByteBattle_theorems.

Section ByteBattle_safety.
Context {T : Type} `{TokenLedger T} `{SigScheme} `{AccountSerialize}.

Lemma on_data_get_nonce id (w : World T) :
  data_wf (w_data w) -> on_data (get_nonce id) w = (Ok (nonce_view (w_data w) id), w).
Proof. intros Hd. unfold on_data, se_focus. rewrite get_nonce_wf by done. by destruct w. Qed.

Lemma on_data_preserves {A} (m : SE Data Error A) :
  preserves data_wf m -> preserves (@world_wf T) (on_data m).
Proof.
  intros Hm w Hw. unfold on_data, se_focus, world_wf in *.
  specialize (Hm _ Hw). destruct (m (w_data w)). done.
Qed.

Lemma token_call_preserves tok f c : preserves (@world_wf T) (token_call tok f c).
Proof.
  intros w Hw. unfold token_call.
  destruct (w_tokens w !! tok); [|done]. by destruct (f _).
Qed.

Lemma get_token_preserves : preserves data_wf get_token.
Proof. intros d Hd. by unfold get_token; se_unfold. Qed.

Lemma set_data_id (w : World T) : set_data (w_data w) w = w.
Proof. by destruct w. Qed.

Lemma on_data_Ok {A} (m : SE Data Error A) (w : World T) a d' :
  m (w_data w) = (Ok a, d') -> on_data m w = (Ok a, set_data d' w).
Proof. intros Hm. unfold on_data, se_focus. by rewrite Hm. Qed.

Lemma token_call_Ok tok f c (w : World T) t t' :
  w_tokens w !! tok = Some t -> f t = Ok t' ->
  token_call tok f c w =
    (Ok tt, {| w_data := w_data w; w_tokens := <[tok := t']> (w_tokens w);
               w_log := w_log w ++ [c] |}).
Proof. intros Ht Hf. unfold token_call. by rewrite Ht, Hf. Qed.

Lemma get_token_Ok d tok :
  data_get_bytes32 Token d = Some (Ok tok) -> get_token d = (Ok tok, d).
Proof. intros Hg. unfold get_token. se_unfold. by rewrite Hg. Qed.

(** A player-1 proof that [verify] rejects for the message [battle]
    reconstructs aborts [battle] before anything is written. *)
Lemma battle_verify1_err env s1 s2 amount (w : World T) e :
  data_wf (w_data w) ->
  verify env s1 "battle"
    (battle_args (sig_identifier env s1) (nonce_view (w_data w) (sig_identifier env s1))
       (sig_identifier env s2) amount) = Err e ->
  battle env s1 s2 amount w = (Err e, w).
Proof.
  intros Hwf Hv. unfold battle, authorize.
  rewrite se_bind_assoc, (se_bind_ok _ _ _ _ _ (on_data_get_nonce _ _ Hwf)), se_bind_assoc,
          (se_bind_ok _ _ _ _ _ (on_data_get_nonce _ _ Hwf)), se_bind_assoc.
  apply se_bind_err. unfold se_lift. by rewrite Hv.
Qed.

(** A player-1 proof that verifies but whose consumption the nonce ledger
    refuses, without writing, aborts [battle] with that error and before
    anything is written. *)
Lemma battle_consume1_err env s1 s2 amount (w : World T) e :
  data_wf (w_data w) ->
  let id1 := sig_identifier env s1 in
  let n1 := nonce_view (w_data w) id1 in
  verify env s1 "battle" (battle_args id1 n1 (sig_identifier env s2) amount) = Ok tt ->
  verify_and_consume_nonce env s1 n1 (w_data w) = (Err e, w_data w) ->
  battle env s1 s2 amount w = (Err e, w).
Proof.
  intros Hwf. cbv zeta. intros Hv Hc. unfold battle, authorize.
  rewrite se_bind_assoc, (se_bind_ok _ _ _ _ _ (on_data_get_nonce _ _ Hwf)), se_bind_assoc,
          (se_bind_ok _ _ _ _ _ (on_data_get_nonce _ _ Hwf)), se_bind_assoc.
  rewrite Hv, se_bind_lift_Ok, se_bind_assoc. apply se_bind_err.
  unfold on_data, se_focus. rewrite Hc. by destruct w.
Qed.

(** A player-1 Ed25519 signature that verifies for another payload than the
    one [battle] reconstructs is rejected before anything is written. *)
Lemma battle_rejects_payload env pk sg s2 amount (w : World T) p :
  data_wf (w_data w) ->
  ed25519_verify pk p sg = true ->
  p <> signature_payload env "battle"
         (battle_args (Ed25519 pk) (nonce_view (w_data w) (Ed25519 pk))
            (sig_identifier env s2) amount) ->
  battle env (SigEd25519 {| public_key := pk; signature := sg |}) s2 amount w =
    (Err InvalidAuthorization, w).
Proof.
  intros Hwf Hp Hne. apply battle_verify1_err; [done|].
  cbn -[signature_payload]. unfold verify_ed25519_signature. cbn -[signature_payload].
  destruct (ed25519_verify pk (signature_payload _ _ _) sg) eqn:E; [|done].
  exfalso. apply Hne. eapply ed25519_verify_unique; eauto.
Qed.

End ByteBattle_safety.

#[export] Hint Resolve on_data_preserves token_call_preserves get_token_preserves
  consume_preserves : se_inv.


Section ByteBattle_authorize.
Context {T : Type} `{TokenLedger T} `{SigScheme} `{AccountSerialize}.

(** A successful authorization phase, step by step: both proofs verified
    over the messages built from the counters read at the start, both
    consumptions accepted in order, and only the storage changed. *)
Lemma authorize_Ok_inv env s1 s2 amount (w w' : World T) ids :
  data_wf (w_data w) ->
  authorize env s1 s2 amount w = (Ok ids, w') ->
  let id1 := sig_identifier env s1 in
  let id2 := sig_identifier env s2 in
  let n1 := nonce_view (w_data w) id1 in
  let n2 := nonce_view (w_data w) id2 in
  ids = (id1, id2) /\
  verify env s1 "battle" (battle_args id1 n1 id2 amount) = Ok tt /\
  verify env s2 "battle" (battle_args id2 n2 id1 amount) = Ok tt /\
  exists d1 d2, verify_and_consume_nonce env s1 n1 (w_data w) = (Ok tt, d1) /\
    verify_and_consume_nonce env s2 n2 d1 = (Ok tt, d2) /\ w' = set_data d2 w.
Proof.
  intros Hwf Hrun. unfold authorize in Hrun. run_inv.
  apply get_nonce_Ok_inv in Hd2 as [-> ->]; [|done].
  apply get_nonce_Ok_inv in Hd1 as [-> ->]; [|done].
  repeat match goal with u : unit |- _ => destruct u end.
  naive_solver.
Qed.

(** The converse: when both proofs verify and both consumptions are
    accepted, the authorization phase succeeds with the identities. *)
Lemma authorize_Ok env s1 s2 amount (w : World T) d1 d2 :
  let id1 := sig_identifier env s1 in
  let id2 := sig_identifier env s2 in
  let n1 := nonce_view (w_data w) id1 in
  let n2 := nonce_view (w_data w) id2 in
  data_wf (w_data w) ->
  verify env s1 "battle" (battle_args id1 n1 id2 amount) = Ok tt ->
  verify env s2 "battle" (battle_args id2 n2 id1 amount) = Ok tt ->
  verify_and_consume_nonce env s1 n1 (w_data w) = (Ok tt, d1) ->
  verify_and_consume_nonce env s2 n2 d1 = (Ok tt, d2) ->
  authorize env s1 s2 amount w = (Ok (id1, id2), set_data d2 w).
Proof.
  intros id1 id2 n1 n2 Hwf Hv1 Hv2 Hr1 Hr2. subst n1 n2.
  unfold authorize. cbv zeta. fold id1 id2.
  rewrite (se_bind_ok _ _ _ _ _ (on_data_get_nonce _ _ Hwf)),
          (se_bind_ok _ _ _ _ _ (on_data_get_nonce _ _ Hwf)).
  rewrite Hv1, Hv2, se_bind_lift_Ok.
  rewrite (se_bind_ok _ _ _ _ _ (on_data_Ok _ _ _ _ Hr1)), se_bind_lift_Ok.
  by rewrite (se_bind_ok _ _ _ _ _ (on_data_Ok _ (set_data d1 w) _ _ Hr2)).
Qed.

End ByteBattle_authorize.

Section ByteBattle_safety_theorems.
Context {T : Type} `{TokenLedger T} `{SigScheme} `{AccountSerialize}.

(** [battle] keeps the contract's storage well typed, whether it returns
    or aborts. *)
Lemma battle_run_preserves env s1 s2 amount :
  preserves (@world_wf T) (battle env s1 s2 amount).
Proof.
  unfold battle. cbv zeta.
  repeat (apply preserves_bind;
          [eauto with se_inv
          |match goal with
           | |- forall p : _ * _, _ => intros [? ?]
           | _ => intros ?
           end]).
  all: first [eauto with se_inv | apply preserves_if; unfold client_xfer; eauto with se_inv].
Qed.

(** C17: the order of the two proofs does not matter to the authorization
    phase (spec section 8, symmetry): on well-typed storage, if checking
    player 1's proof and then player 2's succeeds, checking them the other
    way round succeeds as well, returns the identities swapped and leaves
    the same world.  Two proofs of one identity never pass together, in
    either order. *)
Theorem authorize_symmetric env s1 s2 amount (w w' : World T) i1 i2 :
  data_wf (w_data w) ->
  authorize env s1 s2 amount w = (Ok (i1, i2), w') ->
  authorize env s2 s1 amount w = (Ok (i2, i1), w').
Proof.
  intros Hwf Hrun.
  destruct (authorize_Ok_inv _ _ _ _ _ _ _ Hwf Hrun)
    as (Hids & Hv1 & Hv2 & d1 & d2 & Hr1 & Hr2 & ->).
  injection Hids as -> ->.
  destruct (consume_commute env s1 s2 (w_data w) d1 d2 Hwf Hr1 Hr2) as (d1' & Hr2' & Hr1').
  exact (authorize_Ok env s2 s1 amount w d1' d2 Hwf Hv2 Hv1 Hr2' Hr1').
Qed.

(** The counters a successful battle leaves: each identity's grows by its
    signed proofs among the two, and two signed proofs never share an
    identity. *)
Lemma battle_spec_nonces env s1 s2 amount (w w' : World T) r :
  battle_spec env s1 s2 amount w r w' ->
  (forall j, nonce_view (w_data w') j =
             nonce_view (w_data w) j + signed_by env s1 j + signed_by env s2 j) /\
  (s1 <> Invoker -> s2 <> Invoker -> sig_identifier env s1 <> sig_identifier env s2).
Proof.
  intros (_ & _ & v1 & _ & _ & _ & _ & _ & _ & _ & Hc1 & Hc2 & _). split.
  - intros j. rewrite (consumed_view _ _ _ _ _ Hc2 j), (consumed_view _ _ _ _ _ Hc1 j). lia.
  - intros Hs1 Hs2 Heq. destruct Hc1 as (u1 & Hc1 & Hu1), Hc2 as (u2 & Hc2 & _).
    apply consume_spec_Ok in Hc1 as [[? _]|(_ & _ & _ & ->)]; [done|].
    apply consume_spec_Ok in Hc2 as [[? _]|(_ & Hn2 & _ & _)]; [done|].
    rewrite <- Hu1, <- Heq in Hn2. unfold view_update in Hn2.
    rewrite decide_True in Hn2 by done. lia.
Qed.

(** A successful battle in which player 1 signed advances player 1's
    counter. *)
Lemma battle_advances_player1 env s1 s2 amount (w w' : World T) r :
  data_wf (w_data w) -> s1 <> Invoker ->
  battle env s1 s2 amount w = (Ok r, w') ->
  nonce_view (w_data w') (sig_identifier env s1) <> nonce_view (w_data w) (sig_identifier env s1).
Proof.
  intros Hwf Hs1 Hrun.
  destruct (battle_spec_nonces _ _ _ _ _ _ _ (battle_run_spec _ _ _ _ _ _ _ Hwf Hrun)) as [Hn _].
  rewrite Hn. pose proof (signed_by_bounds env s2 (sig_identifier env s1)).
  unfold signed_by at 1. destruct s1; [done|..]; rewrite decide_True by done; lia.
Qed.

(** [battle] keeps the storage well typed: the world after a successful
    run. *)
Lemma battle_Ok_wf env s1 s2 amount (w w' : World T) r :
  world_wf w -> battle env s1 s2 amount w = (Ok r, w') -> world_wf w'.
Proof.
  intros Hwf Hrun. change w' with (snd (@Ok Error (bytes * bytes * Z * Z) r, w')).
  rewrite <- Hrun. by apply battle_run_preserves.
Qed.

(** C9: mismatched terms are rejected: if player 1's Ed25519 signature
    was made for a battle against another counterpart or for another
    amount, [battle] aborts with [InvalidAuthorization] and nothing has
    been written or transferred. *)
Theorem battle_rejects_mismatched_terms env pk sg s2 amount (w : World T) n' other amount' :
  data_wf (w_data w) ->
  ed25519_verify pk (signature_payload env "battle" (battle_args (Ed25519 pk) n' other amount')) sg
    = true ->
  (other, amount') <> (sig_identifier env s2, amount) ->
  battle env (SigEd25519 {| public_key := pk; signature := sg |}) s2 amount w =
    (Err InvalidAuthorization, w).
Proof.
  intros Hwf Hsig Hne. eapply battle_rejects_payload; [done|exact Hsig|].
  intros [= _ Ho Ha]. apply Hne. by rewrite Ho, Ha.
Qed.

(** C8: a battle cannot be replayed: after a successful [battle] in which
    player 1 signed with an Ed25519 key, the same call on the resulting
    state aborts with [InvalidAuthorization], because player 1's nonce has
    advanced and the signature covers the old one. *)
Theorem battle_no_replay env pk sg s2 amount (w w' : World T) r :
  data_wf (w_data w) ->
  battle env (SigEd25519 {| public_key := pk; signature := sg |}) s2 amount w = (Ok r, w') ->
  battle env (SigEd25519 {| public_key := pk; signature := sg |}) s2 amount w' =
    (Err InvalidAuthorization, w').
Proof.
  intros Hwf Hrun. opose proof (battle_advances_player1 _ _ _ _ _ _ _ Hwf _ Hrun) as Hn; [done|].
  destruct (battle_run_spec _ _ _ _ _ _ _ Hwf Hrun) as (Hv1 & _).
  cbn -[signature_payload] in Hv1. unfold verify_ed25519_signature in Hv1.
  cbn -[signature_payload] in Hv1.
  destruct (ed25519_verify pk (signature_payload _ _ _) sg) eqn:Hsig; [|done].
  eapply battle_rejects_payload; [by eapply battle_Ok_wf|exact Hsig|].
  intros [= Hn']. by apply Hn.
Qed.

(** C21: account proofs cannot be replayed either, as long as the account
    needs a positive signing weight: after a successful [battle] in which
    player 1 authorized with an account proof, the same call on the
    resulting state aborts with [InvalidAuthorization], since every
    signature of the proof covers the old nonce. *)
Theorem battle_no_replay_account env a s2 amount (w w' : World T) r th :
  data_wf (w_data w) ->
  account_threshold env (account_id a) = Some th -> 0 < th ->
  (forall pk, 0 <= signer_weight env (account_id a) pk) ->
  battle env (SigAccount a) s2 amount w = (Ok r, w') ->
  battle env (SigAccount a) s2 amount w' = (Err InvalidAuthorization, w').
Proof.
  intros Hwf Hth Hpos Hw Hrun.
  opose proof (battle_advances_player1 _ _ _ _ _ _ _ Hwf _ Hrun) as Hn; [done|].
  destruct (battle_run_spec _ _ _ _ _ _ _ Hwf Hrun) as (Hv1 & _).
  apply battle_verify1_err; [by eapply battle_Ok_wf|].
  eapply verify_account_binds; [done|exact Hth|done|exact Hv1|]. intros [= Hn']. by apply Hn.
Qed.

(** C23: an identity that has consumed a signed nonce can no longer fight
    as the invoker: [battle] passes the invoker's stored counter as the
    claimed nonce of its implicit proof (src/src/lib.rs:50 and :59), so
    once that counter is not 0 the call aborts with
    [IncorrectNonceForInvoker] before anything is written. *)
Theorem battle_invoker_nonce_locked env s2 amount (w : World T) :
  data_wf (w_data w) ->
  nonce_view (w_data w) (sig_identifier env Invoker) <> 0 ->
  battle env Invoker s2 amount w = (Err IncorrectNonceForInvoker, w).
Proof.
  intros Hwf Hn. apply battle_consume1_err; [done..|].
  cbn [verify_and_consume_nonce]. se_unfold. by rewrite (proj2 (Z.eqb_neq _ _) Hn).
Qed.

(** C29: the boundary of the [i64] counter: a signed player-1 proof whose
    identity's counter is [i64::MAX] verifies but cannot be consumed, since
    [nonce + 1] overflows (src/src/auth.rs:24, a build with overflow
    checks); [battle] aborts with [Overflow] before anything is written. *)
Theorem battle_nonce_overflow env s1 s2 amount (w : World T) :
  data_wf (w_data w) -> s1 <> Invoker ->
  nonce_view (w_data w) (sig_identifier env s1) = i64_max ->
  verify env s1 "battle"
    (battle_args (sig_identifier env s1) i64_max (sig_identifier env s2) amount) = Ok tt ->
  battle env s1 s2 amount w = (Err Overflow, w).
Proof.
  intros Hwf Hs Hmax Hv. apply battle_consume1_err; [done|by rewrite Hmax|].
  rewrite consume_signed_wf by done. simpl. by rewrite Z.eqb_refl, Hmax, Z.ltb_irrefl.
Qed.

End ByteBattle_safety_theorems.

Section ByteBattle_liveness.
Context {T : Type} `{TokenLedger T} `{!TokenLedgerLaws T} `{SigScheme} `{AccountSerialize}.

(** The proof of [battle_succeeds], shared with the other proofs. *)
Lemma battle_run_succeeds env s1 s2 amount (w : World T) v1 v2 tok t key idx :
  let id1 := sig_identifier env s1 in
  let id2 := sig_identifier env s2 in
  let me := Contract (current_contract env) in
  data_wf (w_data w) ->
  verify env s1 "battle" (battle_args id1 (nonce_view (w_data w) id1) id2 amount) = Ok tt ->
  verify env s2 "battle" (battle_args id2 (nonce_view (w_data w) id2) id1 amount) = Ok tt ->
  consumed (consume_spec env s1 (nonce_view (w_data w) id1) (nonce_view (w_data w))) v1 ->
  consumed (consume_spec env s2 (nonce_view (w_data w) id2) v1) v2 ->
  data_get_bytes32 Token (w_data w) = Some (Ok tok) ->
  w_tokens w !! tok = Some t ->
  id1 <> me -> id2 <> me -> id1 <> id2 ->
  0 <= amount -> 0 <= tk_balance t me ->
  amount <= tk_balance t id1 -> amount <= tk_allowance t id1 me ->
  amount <= tk_balance t id2 -> amount <= tk_allowance t id2 me ->
  player_key id1 (compare_base env) = Ok (key, idx) ->
  is_Some (bytes_get key idx) ->
  exists w', battle env s1 s2 amount w = (Ok (key, key, idx, idx), w').
Proof.
  intros id1 id2 me Hwf Hv1 Hv2 Hc1 Hc2 Htok Ht H1m H2m H12 Ha Hme Hb1 Hal1 Hb2 Hal2 Hk [b Hb].
  destruct (verify_and_consume_nonce_complete env s1 _ _ _ Hwf Hc1) as (d1 & Hr1 & Hn1).
  destruct (verify_and_consume_nonce_Ok env s1 _ _ _ Hwf Hr1) as (_ & Hfr1 & Hwf1).
  apply (consumed_pointwise _ _ _ _ (nonce_view d1)) in Hc2; [|intros j; by rewrite Hn1].
  destruct (verify_and_consume_nonce_complete env s2 _ _ _ Hwf1 Hc2) as (d2 & Hr2 & Hn2).
  destruct (verify_and_consume_nonce_Ok env s2 _ _ _ Hwf1 Hr2) as (_ & Hfr2 & Hwf2).
  assert (Htok2 : data_get_bytes32 Token d2 = Some (Ok tok)).
  { unfold data_get_bytes32 in *. rewrite Hfr2, Hfr1 by done. done. }
  destruct (xfer_from_accepts t me id1 me amount) as [t1 Ht1]; [lia|lia|].
  destruct (xfer_from_accepts t1 me id2 me amount) as [t2 Ht2].
  { rewrite (xfer_from_balance _ _ _ _ _ _ _ Ht1). unfold moved.
    repeat case_decide; try congruence; lia. }
  { rewrite (xfer_from_allowance _ _ _ _ _ _ _ _ Ht1).
    case_decide as Hp; [injection Hp as ->; congruence|lia]. }
  destruct (xfer_accepts t2 me id2 (amount * 2)) as [t3 Ht3].
  { rewrite (xfer_from_balance _ _ _ _ _ _ _ Ht2), (xfer_from_balance _ _ _ _ _ _ _ Ht1).
    unfold moved. repeat case_decide; try congruence; lia. }
  assert (Hauth := authorize_Ok env s1 s2 amount w d1 d2 Hwf Hv1 Hv2 Hr1 Hr2).
  eexists. unfold battle. rewrite (se_bind_ok _ _ _ _ _ Hauth). cbv zeta beta iota. fold id1 id2 me.
  rewrite (se_bind_ok _ _ _ _ _ (on_data_Ok _ (set_data d2 (set_data d1 w)) _ _ (get_token_Ok _ _ Htok2))).
  unfold client_xfer_from.
  erewrite se_bind_ok; [|apply (token_call_Ok _ _ _ _ t t1); [exact Ht|exact Ht1]].
  erewrite se_bind_ok; [|apply (token_call_Ok _ _ _ _ t1 t2); [cbn; apply lookup_insert_eq|exact Ht2]].
  rewrite Hk, se_bind_lift_Ok. cbn beta iota. rewrite se_bind_lift_Ok. cbn beta iota.
  rewrite Hb. cbn [unwrap_or_err]. rewrite !se_bind_lift_Ok, Z.ltb_irrefl.
  unfold client_xfer.
  erewrite se_bind_ok; [|apply (token_call_Ok _ _ _ _ t2 t3); [cbn; apply lookup_insert_eq|exact Ht3]].
  done.
Qed.

(** C10: a battle whose preconditions hold does return: both proofs verify
    over the messages built from the stored nonces, the abstract ledger
    accepts both consumptions, the token is configured and holds enough
    balance and allowance for both players, and player 1's key has a byte
    at its compare index.  Then [battle] returns player 1's key and index
    twice. *)
Theorem battle_succeeds env s1 s2 amount (w : World T) v1 v2 tok t key idx :
  let id1 := sig_identifier env s1 in
  let id2 := sig_identifier env s2 in
  let me := Contract (current_contract env) in
  data_wf (w_data w) ->
  verify env s1 "battle" (battle_args id1 (nonce_view (w_data w) id1) id2 amount) = Ok tt ->
  verify env s2 "battle" (battle_args id2 (nonce_view (w_data w) id2) id1 amount) = Ok tt ->
  consumed (consume_spec env s1 (nonce_view (w_data w) id1) (nonce_view (w_data w))) v1 ->
  consumed (consume_spec env s2 (nonce_view (w_data w) id2) v1) v2 ->
  data_get_bytes32 Token (w_data w) = Some (Ok tok) ->
  w_tokens w !! tok = Some t ->
  id1 <> me -> id2 <> me -> id1 <> id2 ->
  0 <= amount -> 0 <= tk_balance t me ->
  amount <= tk_balance t id1 -> amount <= tk_allowance t id1 me ->
  amount <= tk_balance t id2 -> amount <= tk_allowance t id2 me ->
  player_key id1 (compare_base env) = Ok (key, idx) ->
  is_Some (bytes_get key idx) ->
  exists w', battle env s1 s2 amount w = (Ok (key, key, idx, idx), w').
Proof. apply battle_run_succeeds. Qed.

(** C4: the balances a successful battle leaves with the configured token,
    for three distinct parties: player 1 has lost the stake, player 2 has
    gained it (stake back plus the opponent's), the contract's own balance
    is unchanged, and nobody else's balance moved. *)
Theorem battle_balances env s1 s2 amount (w w' : World T) r tok t :
  let id1 := sig_identifier env s1 in
  let id2 := sig_identifier env s2 in
  let me := Contract (current_contract env) in
  data_wf (w_data w) ->
  battle env s1 s2 amount w = (Ok r, w') ->
  data_get_bytes32 Token (w_data w) = Some (Ok tok) ->
  w_tokens w !! tok = Some t ->
  id1 <> id2 -> id1 <> me -> id2 <> me ->
  exists t', w_tokens w' !! tok = Some t' /\
    tk_balance t' id1 = tk_balance t id1 - amount /\
    tk_balance t' id2 = tk_balance t id2 + amount /\
    tk_balance t' me = tk_balance t me /\
    forall j, j <> id1 -> j <> id2 -> j <> me -> tk_balance t' j = tk_balance t j.
Proof.
  intros id1 id2 me Hwf Hrun Htok Ht H12 H1m H2m. subst id1 id2 me.
  destruct (battle_run_spec _ _ _ _ _ _ _ Hwf Hrun)
    as (_ & _ & _ & tok' & t0 & t1 & t2 & t3 & _ & _ & _ & _ & _ & Htok' & Ht0
        & X1 & X2 & X3 & Hw & _).
  rewrite Htok in Htok'. injection Htok' as <-. rewrite Ht in Ht0. injection Ht0 as <-.
  exists t3. rewrite Hw, lookup_insert_eq. split; [done|].
  set (me := Contract (current_contract env)).
  assert (Hb : forall j, tk_balance t3 j = tk_balance t j
                 + moved (sig_identifier env s1) me j amount
                 + moved (sig_identifier env s2) me j amount
                 + moved me (sig_identifier env s2) j (amount * 2)).
  { intros j. rewrite (xfer_balance _ _ _ _ _ _ X3), (xfer_from_balance _ _ _ _ _ _ _ X2),
      (xfer_from_balance _ _ _ _ _ _ _ X1). unfold me. lia. }
  unfold moved in Hb. subst me.
  repeat split; intros; rewrite Hb; repeat case_decide; subst; try congruence; lia.
Qed.

End ByteBattle_liveness.

Section ByteBattle_accounts.
Context `{SigScheme}.

(** C20: the check of an account proof over a [battle] message accepts
    exactly the proofs its reference describes: the account exists, the
    signatures' keys are strictly increasing, every signature is valid for
    the message, and the total signer weight is a [u32] that reaches the
    threshold.  The loop's order check, checked addition and early exits
    implement that reference whenever signer weights are non-negative. *)
Theorem verify_account_signatures_spec env a me n other amount :
  (forall pk, 0 <= signer_weight env (account_id a) pk) ->
  verify_account_signatures env a "battle" (battle_args me n other amount) = Ok tt <->
  exists th, account_threshold env (account_id a) = Some th /\
    keys_increasing None (map public_key (signatures a)) = true /\
    Forall (fun s => ed25519_verify (public_key s)
                       (signature_payload env "battle" (battle_args me n other amount))
                       (signature s) = true) (signatures a) /\
    th <= sigs_weight env (account_id a) (signatures a) <= u32_max.
Proof. apply verify_account_signatures_iff. Qed.

(** C22: an account whose threshold is not positive is authorized by an
    account proof that carries no signature at all, whatever the [battle]
    message: for such an account the nonce, the counterpart and the amount
    of the signed arguments bind nothing. *)
Theorem empty_account_proof_accepted env acc n other amount th :
  account_threshold env acc = Some th -> th <= 0 ->
  verify env (SigAccount {| account_id := acc; signatures := [] |}) "battle"
    (battle_args (Account acc) n other amount) = Ok tt.
Proof.
  intros Hth Hle. simpl. unfold verify_account_signatures. simpl. rewrite Hth. simpl.
  by destruct (Z.ltb_spec 0 th); [lia|].
Qed.

End ByteBattle_accounts.

Section ByteBattle_entry_points.
Context {T : Type} `{TokenLedger T} `{SigScheme} `{AccountSerialize}.

Lemma compare_base_bounds env : 0 <= compare_base env < 32.
Proof. unfold compare_base. apply Z.mod_pos_bound. lia. Qed.

Lemma player_key_index id k i env :
  player_key id (compare_base env) = Ok (k, i) ->
  i = compare_base env + match id with Account _ => 16 | _ => 0 end.
Proof.
  pose proof (compare_base_bounds env).
  destruct id; simpl; [by intros [= _ ->]; lia|by intros [= _ ->]; lia|].
  unfold u32_checked_add. rewrite checked_add_in by zlia. by intros [= _ <-].
Qed.

(** C11: the compare indices of a successful battle are both
    [timestamp mod 32], plus 16 when player 1 is an account; so they are
    equal and lie in [0, 48). *)
Theorem battle_compare_index env s1 s2 amount (w w' : World T) k1 k2 i1 i2 :
  battle env s1 s2 amount w = (Ok (k1, k2, i1, i2), w') ->
  i1 = i2 /\ 0 <= i1 < 48 /\
  i1 = ledger_timestamp env mod 32
       + match sig_identifier env s1 with Account _ => 16 | _ => 0 end.
Proof.
  intros Hrun. apply battle_run_keys in Hrun as (_ & <- & Hk).
  apply player_key_index in Hk as ->. pose proof (compare_base_bounds env).
  unfold compare_base in *. destruct (sig_identifier env s1); lia.
Qed.

(** C12: initialization is write-once and round-trips: after a successful
    [initialize] with a 32-byte address, [token] returns that address, a
    second [initialize] (with any address) aborts with
    [AlreadyInitialized] leaving the storage as it is, and no other key
    was written. *)
Theorem initialize_write_once addr addr' d d' :
  bytesN 32 addr = true ->
  initialize addr d = (Ok tt, d') ->
  token d' = (Ok addr, d') /\
  initialize addr' d' = (Err AlreadyInitialized, d') /\
  (forall k, k <> Token -> d' !! k = d !! k).
Proof.
  intros Hb. unfold initialize. se_unfold.
  destruct (data_has Token d); [done|]. intros [= <-].
  unfold token, get_token, data_has, data_get_bytes32, data_set. se_unfold.
  rewrite lookup_insert_eq, Hb. split; [done|]. split.
  - by rewrite bool_decide_eq_true_2.
  - intros k Hk. by rewrite lookup_insert_ne.
Qed.

End ByteBattle_entry_points.
