(* ===== verification/Contract.v ===== *)
(** * Invocations, transactions and reachable states

    The contract's exported interface (the [ByteBattleTraits] impl of
    src/src/lib.rs:22-34) as a dispatch on a [Call], run as a transaction:
    the host keeps the world an invocation ends in when it returns, and
    discards it when it aborts ([run_tx]).  The ledger evolves by such
    transactions and by anything done to the token contracts by other
    parties ([step]); [reachable] states are those reached from a
    deployment with empty storage.  The theorems are invariants by rule
    induction on [step]: storage stays well typed, the token address once
    set never changes, nonces never decrease, and battles fought with
    implicit (invoker) proofs advance no nonce.  Sequences of transactions
    ([run_trace]) count: each counter grows by the accepted signed proofs
    of its identity; a battle before [initialize], or with two signed
    proofs of one identity, always aborts.  The setup and
    read entry points are characterised on every branch, and accepting
    signed proofs of one identity terminates ([accepts_signed] is
    well-founded). *)

From Stdlib Require Import ZArith Lia String Zwf Wellfounded.
From stdpp Require Import base list gmap countable strings relations.
From S2P Require Import Prelude Soroban Storage Auth TokenLedger ByteBattle.

Local Open Scope Z_scope.

Inductive Call :=
| CallInitialize (token_address : bytes)
| CallBattle (player1_sig player2_sig : Signature) (amount : Z)
| CallNonce (user : Identifier)
| CallToken.

Inductive Ret :=
| RetUnit
| RetBattle (r : bytes * bytes * Z * Z)
| RetI64 (n : Z)
| RetBytes (b : bytes).

(** What an accepted call adds to the counter of [id]: the signed proofs
    of [id] among a battle's two. *)
Definition advances (env : Env) (c : Call) (id : Identifier) : Z :=
  match c with
  | CallBattle s1 s2 _ => signed_by env s1 id + signed_by env s2 id
  | _ => 0
  end.

(** The signed proofs of [id] accepted along a trace, given the outcomes of
    its transactions. *)
Fixpoint accepted (txs : list (Env * Call)) (rs : list (res Error Ret)) (id : Identifier) : Z :=
  match txs, rs with
  | (env, c) :: txs', Ok _ :: rs' => advances env c id + accepted txs' rs' id
  | _ :: txs', Err _ :: rs' => accepted txs' rs' id
  | _, _ => 0
  end.

Section Contract.
Context {T : Type} `{TokenLedger T} `{SigScheme} `{AccountSerialize}.

(** The entry points.  The host converts [initialize]'s argument to a
    [BytesN<32>] before the call, and aborts if it is not one. *)
Definition dispatch (env : Env) (c : Call) : SE (World T) Error Ret :=
  match c with
  | CallInitialize a =>
      if bytesN 32 a then on_data (initialize a);; mret RetUnit
      else mthrow ConversionError
  | CallBattle s1 s2 amount => r ← battle env s1 s2 amount; mret (RetBattle r)
  | CallNonce u => n ← on_data (nonce u); mret (RetI64 n)
  | CallToken => b ← on_data token; mret (RetBytes b)
  end.

(** A transaction: an aborted invocation has no effect. *)
Definition run_tx (env : Env) (c : Call) (w : World T) : res Error Ret * World T :=
  match dispatch env c w with
  | (Ok r, w') => (Ok r, w')
  | (Err e, _) => (Err e, w)
  end.

Inductive step : World T -> World T -> Prop :=
| step_tx env c w r w' :
    run_tx env c w = (r, w') -> step w w'
| step_token w tok t t' :
    w_tokens w !! tok = Some t ->
    step w {| w_data := w_data w; w_tokens := <[tok := t']> (w_tokens w);
              w_log := w_log w |}.

(** A freshly deployed contract: no storage yet. *)
Definition deployed (w : World T) : Prop := w_data w = ∅.

Definition reachable (w : World T) : Prop :=
  exists w0, deployed w0 /\ rtc step w0 w.


(** A sequence of transactions, each in its own environment, run one
    after the other; the outcome of each is recorded. *)
Fixpoint run_trace (txs : list (Env * Call)) (w : World T) : list (res Error Ret) * World T :=
  match txs with
  | [] => ([], w)
  | (env, c) :: txs' =>
      let '(r, w1) := run_tx env c w in
      let '(rs, w2) := run_trace txs' w1 in
      (r :: rs, w2)
  end.

End Contract.

Section Contract_facts.
Context {T : Type} `{TokenLedger T} `{SigScheme} `{AccountSerialize}.

Lemma initialize_Ok_inv a d d' u :
  initialize a d = (Ok u, d') ->
  data_has Token d = false /\ d' = data_set Token (VBytes a) d.
Proof. unfold initialize. se_unfold. destruct (data_has Token d); by intros [=]. Qed.

(** What a successful invocation does to the contract's storage. *)
Lemma dispatch_Ok_data env c (w w' : World T) r :
  world_wf w -> dispatch env c w = (Ok r, w') ->
  (exists a, bytesN 32 a = true /\ data_has Token (w_data w) = false /\
             w_data w' = data_set Token (VBytes a) (w_data w)) \/
  (exists s1 s2 amount r', battle env s1 s2 amount w = (Ok r', w') /\
             battle_spec env s1 s2 amount w r' w') \/
  w_data w' = w_data w.
Proof.
  intros Hwf. destruct c as [a|s1 s2 amount|u|]; simpl.
  - destruct (bytesN 32 a) eqn:Hb; [|done]. intros Hrun. run_inv.
    apply initialize_Ok_inv in Hd as [Hh ->]. left. eauto.
  - intros Hrun. run_inv. right; left. do 4 eexists. split; [done|].
    by apply battle_run_spec.
  - intros Hrun. run_inv. unfold nonce in Hd.
    apply get_nonce_Ok_inv in Hd as [_ ->]; [|done]. by right; right.
  - intros Hrun. run_inv. unfold token in Hd. apply get_token_Ok_inv in Hd as [-> _].
    by right; right.
Qed.

Lemma run_tx_preserves env c (w w' : World T) r :
  world_wf w -> run_tx env c w = (r, w') -> world_wf w'.
Proof.
  intros Hw. unfold run_tx. destruct (dispatch env c w) as [[x|e] w''] eqn:Hrun;
    intros [= <- <-]; [|done].
  destruct (dispatch_Ok_data env c w w'' x Hw Hrun) as
    [(a & Hb & _ & Hd)|[(s1 & s2 & amount & r' & Hb & _)|Hd]].
  - unfold world_wf. rewrite Hd. by apply data_wf_set.
  - change w'' with (snd (@Ok Error (bytes * bytes * Z * Z) r', w'')). rewrite <- Hb.
    by apply battle_run_preserves.
  - unfold world_wf. by rewrite Hd.
Qed.

Lemma step_preserves (w w' : World T) : world_wf w -> step w w' -> world_wf w'.
Proof. intros Hw Hs. destruct Hs as [env c w r w' Hrun|]; [|done]. by eapply run_tx_preserves. Qed.

Lemma step_token_slot (w w' : World T) v :
  world_wf w -> step w w' -> w_data w !! Token = Some v -> w_data w' !! Token = Some v.
Proof.
  intros Hw Hs Hv. destruct Hs as [env c w r w' Hrun|]; [|done].
  unfold run_tx in Hrun.
  destruct (dispatch env c w) as [[x|e] w''] eqn:Hd; injection Hrun as <- <-; [|done].
  destruct (dispatch_Ok_data env c w w'' x Hw Hd)
    as [(a & _ & Hh & _)|[(s1 & s2 & amount & r' & _ & Hspec)|Hd']].
  - unfold data_has in Hh. by rewrite Hv, bool_decide_eq_true_2 in Hh.
  - destruct Hspec as (_ & _ & _ & _ & _ & _ & _ & _ & _ & _ & _ & _ & Hfr & _).
    by rewrite Hfr.
  - by rewrite Hd'.
Qed.

Lemma step_nonce_mono (w w' : World T) id :
  world_wf w -> step w w' -> nonce_view (w_data w) id <= nonce_view (w_data w') id.
Proof.
  intros Hw Hs. destruct Hs as [env c w r w' Hrun|]; [|simpl; lia].
  unfold run_tx in Hrun.
  destruct (dispatch env c w) as [[x|e] w''] eqn:Hd; injection Hrun as <- <-; [|lia].
  destruct (dispatch_Ok_data env c w w'' x Hw Hd)
    as [(a & _ & _ & Hd')|[(s1 & s2 & amount & r' & _ & Hspec)|Hd']].
  - unfold nonce_view. rewrite Hd'. unfold data_set. by rewrite lookup_insert_ne.
  - destruct Hspec as (_ & _ & v1 & _ & _ & _ & _ & _ & _ & _ & Hc1 & Hc2 & _).
    pose proof (consumed_mono _ _ _ _ _ Hc1 id). pose proof (consumed_mono _ _ _ _ _ Hc2 id).
    lia.
  - rewrite Hd'. lia.
Qed.

(** One transaction advances each counter by the signed proofs it
    accepted, and not at all when it aborts. *)
Lemma run_tx_nonce env c (w w' : World T) r :
  world_wf w -> run_tx env c w = (r, w') ->
  forall j, nonce_view (w_data w') j =
            nonce_view (w_data w) j + match r with Ok _ => advances env c j | Err _ => 0 end.
Proof.
  intros Hw Hrun j. unfold run_tx in Hrun.
  destruct (dispatch env c w) as [[x|e] w''] eqn:Hd; injection Hrun as <- <-; [|lia].
  destruct c as [a|s1 s2 amount|u|]; simpl in Hd |- *.
  - destruct (bytesN 32 a); [|done]. run_inv. apply initialize_Ok_inv in Hd0 as [_ ->].
    unfold nonce_view, data_set. rewrite lookup_insert_ne by done. lia.
  - run_inv. destruct (battle_run_spec _ _ _ _ _ _ _ Hw Hm)
      as (_ & _ & v1 & _ & _ & _ & _ & _ & _ & _ & Hc1 & Hc2 & _).
    rewrite (consumed_view _ _ _ _ _ Hc2 j), (consumed_view _ _ _ _ _ Hc1 j). lia.
  - run_inv. unfold nonce in Hd0. apply get_nonce_Ok_inv in Hd0 as [_ ->]; [lia|done].
  - run_inv. unfold token in Hd0. apply get_token_Ok_inv in Hd0 as [-> _]. lia.
Qed.

(** A battle that cannot succeed is a transaction that aborts and leaves
    the world as it was. *)
Lemma run_tx_battle_abort env s1 s2 amount (w : World T) :
  (forall r w', battle env s1 s2 amount w <> (Ok r, w')) ->
  exists e, run_tx env (CallBattle s1 s2 amount) w = (Err e, w).
Proof.
  intros Hno. unfold run_tx. simpl.
  destruct (battle env s1 s2 amount w) as [[x|e] w''] eqn:Hb;
    cbv [mbind SE_bind mret SE_ret]; rewrite Hb; [|by exists e].
  by destruct (Hno x w'').
Qed.

End Contract_facts.

Section Contract_theorems.
Context {T : Type} `{TokenLedger T} `{SigScheme} `{AccountSerialize}.

(** The proof of [reachable_wf], shared with the other proofs. *)
Lemma reachable_world_wf (w : World T) : reachable w -> world_wf w.
Proof.
  intros (w0 & Hd & Hrtc). eapply (rtc_invariant step world_wf); [|exact Hrtc|].
  - intros a b Ha Hs. by eapply step_preserves.
  - unfold world_wf. rewrite Hd. apply data_wf_empty.
Qed.

(** C13: every reachable state has well-typed storage: every nonce is an
    [i64] in [0, i64::MAX] and the token address, if set, a [BytesN<32>]. *)
Theorem reachable_wf (w : World T) : reachable w -> world_wf w.
Proof. apply reachable_world_wf. Qed.

(** C14: the token address is write-once: from a reachable state in which
    it is set, every later state holds the same address, whatever
    transactions and token activity happen in between. *)
Theorem token_address_immutable (w w' : World T) v :
  reachable w -> rtc step w w' -> w_data w !! Token = Some v -> w_data w' !! Token = Some v.
Proof.
  intros Hr Hrtc Hv.
  apply (rtc_invariant step (fun x => world_wf x /\ w_data x !! Token = Some v) w w');
    [|done|split; [by apply reachable_world_wf|done]].
  intros a b [Ha Hat] Hs. split; [by eapply step_preserves|by eapply step_token_slot].
Qed.

(** C15: nonces never decrease: from a reachable state, every later state
    holds a counter at least as large for every identity. *)
Theorem nonce_monotone (w w' : World T) id :
  reachable w -> rtc step w w' -> nonce_view (w_data w) id <= nonce_view (w_data w') id.
Proof.
  intros Hr Hrtc.
  apply (rtc_invariant step
           (fun x => world_wf x /\ nonce_view (w_data w) id <= nonce_view (w_data x) id) w w');
    [|done|split; [by apply reachable_world_wf|lia]].
  intros a b [Ha Hle] Hs. split; [by eapply step_preserves|].
  pose proof (step_nonce_mono a b id Ha Hs). lia.
Qed.

(** C16: implicit proofs never advance a nonce: a [battle] transaction in
    which both players authorize as the invoker, whether it succeeds or
    aborts, leaves every identity's counter as it was. *)
Theorem invoker_battle_keeps_nonces env amount (w w' : World T) r :
  world_wf w -> run_tx env (CallBattle Invoker Invoker amount) w = (r, w') ->
  forall j, nonce_view (w_data w') j = nonce_view (w_data w) j.
Proof.
  intros Hw Hrun j. unfold run_tx in Hrun. simpl in Hrun.
  destruct (battle env Invoker Invoker amount w) as [[x|e] w''] eqn:Hb;
    cbv [mbind SE_bind mret SE_ret] in Hrun; rewrite Hb in Hrun;
    injection Hrun as <- <-; [|done].
  destruct (battle_run_spec _ _ _ _ _ _ _ Hw Hb)
    as (_ & _ & v1 & _ & _ & _ & _ & _ & _ & _ & (u1 & Hc1 & Hu1) & (u2 & Hc2 & Hu2) & _).
  apply consume_spec_Ok in Hc1 as [(_ & _ & ->)|[[] _]]; [|done].
  apply consume_spec_Ok in Hc2 as [(_ & _ & ->)|[[] _]]; [|done].
  by rewrite <- Hu2, <- Hu1.
Qed.

(** C18: a battle fought before [initialize] always aborts and, being
    rolled back, changes nothing: no nonce is consumed and no stake is
    escrowed, whatever proofs and amount are supplied. *)
Theorem battle_before_initialize_aborts env s1 s2 amount (w : World T) :
  world_wf w -> w_data w !! Token = None ->
  exists e, run_tx env (CallBattle s1 s2 amount) w = (Err e, w).
Proof.
  intros Hw Hnone. apply run_tx_battle_abort. intros r w' Hb.
  destruct (battle_run_spec _ _ _ _ _ _ _ Hw Hb)
    as (_ & _ & _ & tok & _ & _ & _ & _ & _ & _ & _ & _ & _ & Htok & _).
  unfold data_get_bytes32 in Htok. by rewrite Hnone in Htok.
Qed.

(** C19: nonces count accepted signed proofs (spec section 8, nonce
    monotonicity): along any sequence of transactions from well-typed
    storage, each identity's counter grows by exactly the number of its
    signed proofs in the battles that were accepted; aborted transactions
    and implicit proofs add nothing.  From a fresh deployment the counter
    is that number. *)
Theorem nonce_counts_accepted_proofs txs (w : World T) id :
  world_wf w ->
  nonce_view (w_data (snd (run_trace txs w))) id =
    nonce_view (w_data w) id + accepted txs (fst (run_trace txs w)) id.
Proof.
  revert w. induction txs as [|[env c] txs IH]; intros w Hw; simpl; [lia|].
  destruct (run_tx env c w) as [r w1] eqn:Hr.
  destruct (run_trace txs w1) as [rs w2] eqn:Ht. simpl.
  pose proof (run_tx_nonce _ _ _ _ _ Hw Hr id) as Hn.
  pose proof (IH w1 (run_tx_preserves _ _ _ _ _ Hw Hr)) as Hi. rewrite Ht in Hi. simpl in Hi.
  destruct r; lia.
Qed.

(** C24: no identity can fight itself with two signed proofs: a battle in
    which both players' signed proofs speak for the same identity always
    aborts and leaves the world unchanged, since the first consumption
    advances the counter the second one claims. *)
Theorem battle_same_signer_aborts env s1 s2 amount (w : World T) :
  world_wf w -> s1 <> Invoker -> s2 <> Invoker ->
  sig_identifier env s1 = sig_identifier env s2 ->
  exists e, run_tx env (CallBattle s1 s2 amount) w = (Err e, w).
Proof.
  intros Hw Hs1 Hs2 Heq. apply run_tx_battle_abort. intros r w' Hb.
  by apply (battle_spec_nonces _ _ _ _ _ _ _ (battle_run_spec _ _ _ _ _ _ _ Hw Hb)).
Qed.


(** The proof of [entry_points_results], shared with the other proofs. *)
Lemma run_tx_entry_points env (w : World T) :
  world_wf w ->
  (forall t, run_tx env (CallInitialize t) w =
     (if negb (bytesN 32 t) then (Err ConversionError, w)
      else if data_has Token (w_data w) then (Err AlreadyInitialized, w)
      else (Ok RetUnit, set_data (data_set Token (VBytes t) (w_data w)) w))) /\
  (forall u, run_tx env (CallNonce u) w = (Ok (RetI64 (nonce_view (w_data w) u)), w)) /\
  run_tx env CallToken w =
    (match w_data w !! Token with
     | Some (VBytes b) => (Ok (RetBytes b), w)
     | _ => (Err UnwrapNone, w)
     end).
Proof.
  intros Hw. split_and!.
  - intros t. unfold run_tx. simpl. destruct (bytesN 32 t); simpl; [|done].
    unfold on_data, se_focus, initialize. se_unfold.
    by destruct (data_has Token (w_data w)).
  - intros u. unfold run_tx. simpl. unfold nonce.
    by rewrite (se_bind_ok _ _ _ _ _ (on_data_get_nonce _ _ Hw)).
  - unfold run_tx. simpl. unfold on_data, se_focus, token, get_token. se_unfold.
    unfold data_get_bytes32. destruct (w_data w !! Token) as [[n|b]|] eqn:E; simpl.
    + apply Hw in E. done.
    + apply Hw in E. simpl in E. by rewrite E, set_data_id.
    + done.
Qed.

(** C27: the setup and read entry points on every branch, errors
    included, on well-typed storage: [initialize] aborts with
    [ConversionError] on an argument that is not a [BytesN<32>] and with
    [AlreadyInitialized] once a token is stored, and otherwise stores it;
    [nonce] always returns the ledger's counter; [token] returns the stored
    address and aborts with [UnwrapNone] before [initialize].  No abort
    changes the world. *)
Theorem entry_points_results env (w : World T) :
  world_wf w ->
  (forall t, run_tx env (CallInitialize t) w =
     (if negb (bytesN 32 t) then (Err ConversionError, w)
      else if data_has Token (w_data w) then (Err AlreadyInitialized, w)
      else (Ok RetUnit, set_data (data_set Token (VBytes t) (w_data w)) w))) /\
  (forall u, run_tx env (CallNonce u) w = (Ok (RetI64 (nonce_view (w_data w) u)), w)) /\
  run_tx env CallToken w =
    (match w_data w !! Token with
     | Some (VBytes b) => (Ok (RetBytes b), w)
     | _ => (Err UnwrapNone, w)
     end).
Proof. apply run_tx_entry_points. Qed.

End Contract_theorems.
