(* ===== verification/Refinement.v ===== *)
(** * The contract against its abstract specification

    The contract as the specification describes it (spec section 4.2):
    an abstract state of two parts, the configured token address (absent
    before [initialize]) and the nonce ledger as a total map, and one
    abstract transition per entry point.  [abs] reads that state off a
    world; [run_tx_refines_spec] shows that every transaction of the
    model (Contract.v) is an abstract transition: a successful call does
    what section 4.2 prescribes, an aborted one changes nothing.
    [run_tx_complete] is the converse direction. *)

From Stdlib Require Import ZArith Lia String.
From stdpp Require Import base list gmap countable strings relations.
From S2P Require Import Prelude Soroban Storage Auth TokenLedger ByteBattle Contract.

Local Open Scope Z_scope.

Record AState := {
  a_token : option bytes;
  a_nonce : Identifier -> Z
}.

(** Two abstract states agree: same token, same counters everywhere. *)
Definition aeq (a b : AState) : Prop :=
  a_token a = a_token b /\ forall j, a_nonce a j = a_nonce b j.

(** The abstract transitions of section 4.2. *)
Inductive spec_step `{SigScheme} `{AccountSerialize} (env : Env)
    : AState -> Call -> res Error Ret -> AState -> Prop :=
| ss_initialize a t :
    a_token a = None -> bytesN 32 t = true ->
    spec_step env a (CallInitialize t) (Ok RetUnit) {| a_token := Some t; a_nonce := a_nonce a |}
| ss_nonce a u :
    spec_step env a (CallNonce u) (Ok (RetI64 (a_nonce a u))) a
| ss_token a t :
    a_token a = Some t -> spec_step env a CallToken (Ok (RetBytes t)) a
| ss_battle a s1 s2 amount v1 v2 key idx :
    let id1 := sig_identifier env s1 in
    let id2 := sig_identifier env s2 in
    is_Some (a_token a) ->
    verify env s1 "battle" (battle_args id1 (a_nonce a id1) id2 amount) = Ok tt ->
    verify env s2 "battle" (battle_args id2 (a_nonce a id2) id1 amount) = Ok tt ->
    consumed (consume_spec env s1 (a_nonce a id1) (a_nonce a)) v1 ->
    consumed (consume_spec env s2 (a_nonce a id2) v1) v2 ->
    player_key id1 (compare_base env) = Ok (key, idx) ->
    spec_step env a (CallBattle s1 s2 amount) (Ok (RetBattle (key, key, idx, idx)))
      {| a_token := a_token a; a_nonce := v2 |}
| ss_abort a c e :
    spec_step env a c (Err e) a.

Section Refinement.
Context {T : Type} `{TokenLedger T} `{SigScheme} `{AccountSerialize}.

(** The abstract state of a world. *)
Definition abs (w : World T) : AState := {|
  a_token := match data_get_bytes32 Token (w_data w) with Some (Ok b) => Some b | _ => None end;
  a_nonce := nonce_view (w_data w)
|}.

(** What the token contract needs for a battle to go through: the
    configured token exists, the three parties are distinct, the players
    hold and have approved the stake, and player 1's key has a byte at its
    compare index. *)
Definition token_ready (env : Env) (s1 s2 : Signature) (amount : Z) (w : World T) : Prop :=
  let id1 := sig_identifier env s1 in
  let id2 := sig_identifier env s2 in
  let me := Contract (current_contract env) in
  exists tok t,
    data_get_bytes32 Token (w_data w) = Some (Ok tok) /\ w_tokens w !! tok = Some t /\
    id1 <> me /\ id2 <> me /\ id1 <> id2 /\
    0 <= amount /\ 0 <= tk_balance t me /\
    amount <= tk_balance t id1 /\ amount <= tk_allowance t id1 me /\
    amount <= tk_balance t id2 /\ amount <= tk_allowance t id2 me /\
    forall key idx, player_key id1 (compare_base env) = Ok (key, idx) -> is_Some (bytes_get key idx).

End Refinement.

Lemma aeq_refl a : aeq a a.
Proof. by split. Qed.

Section Refinement_theorems.
Context {T : Type} `{TokenLedger T} `{SigScheme} `{AccountSerialize}.

(** The proof of [run_tx_refines_spec], shared with the other proofs. *)
Lemma run_tx_abs_step env c (w w' : World T) r :
  world_wf w -> run_tx env c w = (r, w') ->
  exists a', spec_step env (abs w) c r a' /\ aeq a' (abs w').
Proof.
  intros Hw Hrun. unfold run_tx in Hrun.
  destruct (dispatch env c w) as [[x|e] w''] eqn:Hd; injection Hrun as <- <-;
    [|exists (abs w); split; [constructor|apply aeq_refl]].
  destruct c as [t|s1 s2 amount|u|]; simpl in Hd.
  - destruct (bytesN 32 t) eqn:Hb; [|done]. run_inv.
    apply initialize_Ok_inv in Hd0 as [Hh ->].
    eexists. split; [constructor; [|done]|].
    + unfold abs, data_get_bytes32; simpl. unfold data_has in Hh.
      by destruct (w_data w !! Token); [rewrite bool_decide_eq_true_2 in Hh|].
    + split; simpl; unfold data_get_bytes32, data_set; [by rewrite lookup_insert_eq, Hb|].
      intros j. unfold nonce_view. by rewrite lookup_insert_ne.
  - run_inv. destruct (battle_run_spec _ _ _ _ _ _ _ Hw Hm)
      as (Hv1 & Hv2 & v1 & tok & _ & _ & _ & _ & key & idx & Hc1 & Hc2 & Hfr & Htok &
          _ & _ & _ & _ & _ & _ & Hk & _ & ->).
    eexists. split; [eapply ss_battle; [unfold abs; simpl; by rewrite Htok|eauto..]|].
    split; [|done]. simpl. unfold data_get_bytes32. by rewrite Hfr.
  - run_inv. unfold nonce in Hd0. apply get_nonce_Ok_inv in Hd0 as [-> ->]; [|done].
    eexists. split; [apply (ss_nonce env (abs w) u)|apply aeq_refl].
  - run_inv. unfold token in Hd0. apply get_token_Ok_inv in Hd0 as [-> Hg].
    eexists. split; [constructor; unfold abs; simpl; by rewrite Hg|apply aeq_refl].
Qed.
(** C25: every transaction refines the abstract contract: on well-typed
    storage, what [run_tx] returns and the world it leaves are an abstract
    transition of section 4.2 from the abstract state of the world it
    started in: [initialize] sets an absent token address, [nonce] and
    [token] read the ledger and the address, a successful [battle]
    verified both proofs over the current counters and consumed them as
    the nonce ledger prescribes, and an aborted call changes nothing. *)
Theorem run_tx_refines_spec env c (w w' : World T) r :
  world_wf w -> run_tx env c w = (r, w') ->
  exists a', spec_step env (abs w) c r a' /\ aeq a' (abs w').
Proof. apply run_tx_abs_step. Qed.


End Refinement_theorems.

Section Refinement_converse.
Context {T : Type} `{TokenLedger T} `{!TokenLedgerLaws T} `{SigScheme} `{AccountSerialize}.

(** C28: the converse of [run_tx_refines_spec]: every successful abstract
    transition from the abstract state of a well-typed world is taken by
    the code, with the same result and a world whose abstract state is the
    transition's target; for a battle, provided the token contract accepts
    the stakes ([token_ready]). *)
Theorem run_tx_complete env c (w : World T) r a' :
  world_wf w -> spec_step env (abs w) c (Ok r) a' ->
  match c with CallBattle s1 s2 amount => token_ready env s1 s2 amount w | _ => True end ->
  exists w', run_tx env c w = (Ok r, w') /\ aeq a' (abs w').
Proof.
  intros Hw Hs Hready.
  destruct (run_tx_entry_points env w Hw) as (Hinit & Hnonce & Htoken).
  inversion Hs as [a t Ha Hb|a u|a t Ha|a s1 s2 amount v1 v2 key idx id1 id2 Htok Hv1 Hv2 Hc1 Hc2 Hk|];
    subst; clear Hs.
  - rewrite Hinit, Hb. simpl. unfold abs in Ha; simpl in Ha.
    assert (Hh : data_has Token (w_data w) = false).
    { unfold data_has, data_get_bytes32 in *. apply bool_decide_eq_false_2.
      destruct (w_data w !! Token) as [[|b]|] eqn:E; [|apply Hw in E; simpl in E; rewrite E in Ha|];
        try done; by apply Hw in E. }
    rewrite Hh. eexists. split; [done|]. split; simpl.
    + unfold data_get_bytes32, data_set. by rewrite lookup_insert_eq, Hb.
    + intros j. unfold nonce_view, data_set. by rewrite lookup_insert_ne.
  - rewrite Hnonce. eexists. split; [done|apply aeq_refl].
  - rewrite Htoken. unfold abs in Ha; simpl in Ha. unfold data_get_bytes32 in Ha.
    destruct (w_data w !! Token) as [[|b]|] eqn:E; try done.
    destruct (bytesN 32 b); [|done]. injection Ha as ->. eexists. split; [done|].
    unfold abs; simpl; unfold data_get_bytes32; rewrite E. split; [|done].
    apply Hw in E. simpl in E. by rewrite E.
  - destruct Hready as (tok & t & Htk & Ht & H1m & H2m & H12 & Ha & Hme & Hb1 & Hal1 & Hb2 & Hal2 & Hbyte).
    destruct (battle_run_succeeds env s1 s2 amount w v1 v2 tok t key idx Hw Hv1 Hv2 Hc1 Hc2 Htk Ht
                H1m H2m H12 Ha Hme Hb1 Hal1 Hb2 Hal2 Hk (Hbyte _ _ Hk)) as [w' Hrun].
    exists w'. split; [unfold run_tx; simpl; cbv [mbind SE_bind mret SE_ret]; by rewrite Hrun|].
    destruct (battle_run_spec _ _ _ _ _ _ _ Hw Hrun)
      as (_ & _ & v1' & _ & _ & _ & _ & _ & _ & _ & Hc1' & Hc2' & Hfr & _).
    split; simpl.
    + unfold data_get_bytes32. by rewrite Hfr.
    + intros j. rewrite (consumed_view _ _ _ _ _ Hc2' j), (consumed_view _ _ _ _ _ Hc1' j).
      rewrite (consumed_view _ _ _ _ _ Hc2 j), (consumed_view _ _ _ _ _ Hc1 j). done.
Qed.

End Refinement_converse.
