(* ===== verification/Scenarios.v ===== *)
(** * The repository's test scenarios, run on the model

    The fixtures of src/tests/byte_battle_tests.rs and src/tests/helper.rs
    (a token minted to two Ed25519 players and approved for the contract,
    the contract initialized with the token's address, signatures over the
    [battle] payload) with the spec-modelled [SimpleToken] and the sample
    host services of Soroban.v.  Each test becomes a computation whose
    outcome is checked by evaluation, and the fixtures instantiate the
    theorems of the other files at concrete inputs (their witnesses).
    [test_battle_p1_larger_byte] shows the defect of lines 94-101: player 1
    holds the larger byte at the compare index, yet player 2 is paid. *)

From Stdlib Require Import ZArith Lia String.
From stdpp Require Import base list gmap countable strings relations.
From S2P Require Import Prelude Soroban Storage Auth TokenLedger ByteBattle Contract Refinement.

Import SimpleToken Samples.
Local Open Scope Z_scope.

(** ** Fixtures *)

Definition key32 (n : Z) : bytes := map (fun i => Z.of_nat i + n) (seq 0 32).

Definition battle_address : bytes := key32 100.
Definition token_address : bytes := key32 200.
Definition admin : bytes := key32 150.
Definition battle_id : Identifier := Contract battle_address.

Definition env_test : Env := {|
  ledger_timestamp := 1; network_passphrase := [];
  current_contract := battle_address; invoker := InvokerAccount admin;
  account_threshold := fun _ => Some 1; signer_weight := fun _ _ => 1 |}.

Definition bet : Z := 100.

Definition empty_token : SimpleToken.state := {| balances := ∅; allowances := ∅ |}.

(** Mint [bet] to both players and approve the contract for [bet]
    (test lines 59-109). *)
Definition token_setup (p1 p2 : Identifier) : res TokenError SimpleToken.state :=
  res_bind (mint empty_token p1 bet) (fun t =>
  res_bind (mint t p2 bet) (fun t =>
  res_bind (approve t p1 battle_id bet) (fun t =>
  approve t p2 battle_id bet))).

Definition world_deployed (p1 p2 : Identifier) : World SimpleToken.state := {|
  w_data := ∅;
  w_tokens := {[token_address := match token_setup p1 p2 with Ok t => t | Err _ => empty_token end]};
  w_log := [] |}.

(** The contract after [initialize] with the token's address. *)
Definition world_init (p1 p2 : Identifier) : World SimpleToken.state :=
  snd (run_tx env_test (CallInitialize token_address) (world_deployed p1 p2)).

(** [ed25519::sign] of a [battle] message. *)
Definition battle_sig (pk : bytes) (n : Z) (other : Identifier) (amount : Z) : Signature :=
  SigEd25519 {| public_key := pk;
                signature := sym_sign pk (signature_payload env_test "battle"
                                           (battle_args (Ed25519 pk) n other amount)) |}.

Definition player1 : Identifier := Ed25519 (key32 1).
Definition player2 : Identifier := Ed25519 (key32 3).
Definition player3 : Identifier := Ed25519 (key32 5).

Definition balance_of (w : World SimpleToken.state) (id : Identifier) : option Z :=
  (fun t => balance t id) <$> w_tokens w !! token_address.

(** ** The tests *)

(** [test_initialize] (test lines 12-21): [token] returns the address. *)
Definition test_initialize : res Error Ret :=
  fst (run_tx env_test CallToken (world_init player1 player2)).

(** [test_initialize_already_initialized_expect_panic] (lines 23-32) *)
Definition test_initialize_twice : res Error Ret :=
  fst (run_tx env_test (CallInitialize token_address) (world_init player1 player2)).

(** [test_battle] (lines 34-145): both players sign a battle for [bet]
    with their current nonces, and the battle is run. *)
Definition test_battle_with (k1 k2 : bytes) : res Error Ret * World SimpleToken.state :=
  run_tx env_test
    (CallBattle (battle_sig k1 0 (Ed25519 k2) bet) (battle_sig k2 0 (Ed25519 k1) bet) bet)
    (world_init (Ed25519 k1) (Ed25519 k2)).

Definition test_battle := test_battle_with (key32 1) (key32 3).

(** [test_battle_different_bet_amount_expect_panic] (lines 147-246):
    player 1 signs for [bet - 10]. *)
Definition test_battle_different_bet_amount : res Error Ret :=
  fst (run_tx env_test
         (CallBattle (battle_sig (key32 1) 0 player2 (bet - 10))
                     (battle_sig (key32 3) 0 player1 bet) bet)
         (world_init player1 player2)).

(** [test_battle_different_user_expect_panic] (lines 248-348): player 1
    signs a battle against player 3. *)
Definition test_battle_different_user : res Error Ret :=
  fst (run_tx env_test
         (CallBattle (battle_sig (key32 1) 0 player3 (bet - 10))
                     (battle_sig (key32 3) 0 player1 bet) bet)
         (world_init player1 player2)).

(** [test_battle_reuse_sigs_expect_panic] (lines 349-448): the same two
    signatures are submitted twice. *)
Definition test_battle_reuse_sigs : res Error Ret :=
  let c := CallBattle (battle_sig (key32 1) 0 player2 bet) (battle_sig (key32 3) 0 player1 bet) bet in
  fst (run_tx env_test c (snd (run_tx env_test c (world_init player1 player2)))).

(** ** The tests' assertions, by evaluation *)

Example test_initialize_ok : test_initialize = Ok (RetBytes token_address).
Proof. vm_compute. reflexivity. Qed.

Example test_initialize_twice_panics : test_initialize_twice = Err AlreadyInitialized.
Proof. vm_compute. reflexivity. Qed.

Example test_battle_pays_200 :
  fst test_battle = Ok (RetBattle (key32 1, key32 1, 1, 1)) /\
  balance_of (snd test_battle) player2 = Some 200 /\
  balance_of (snd test_battle) player1 = Some 0.
Proof. vm_compute. repeat split. Qed.

Example test_battle_different_bet_amount_panics :
  test_battle_different_bet_amount = Err InvalidAuthorization.
Proof. vm_compute. reflexivity. Qed.

Example test_battle_different_user_panics :
  test_battle_different_user = Err InvalidAuthorization.
Proof. vm_compute. reflexivity. Qed.

Example test_battle_reuse_sigs_panics : test_battle_reuse_sigs = Err InvalidAuthorization.
Proof. vm_compute. reflexivity. Qed.

(** Player 1's key has byte 51 at index 1, player 2's byte 4: the
    specification's rule picks player 1, the code pays player 2. *)
Example test_battle_p1_larger_byte :
  bytes_get (key32 50) 1 = Some 51 /\ bytes_get (key32 3) 1 = Some 4 /\
  balance_of (snd (test_battle_with (key32 50) (key32 3))) (Ed25519 (key32 3)) = Some 200 /\
  balance_of (snd (test_battle_with (key32 50) (key32 3))) (Ed25519 (key32 50)) = Some 0.
Proof. vm_compute. repeat split. Qed.

(** ** Witnesses of the theorems *)

Definition sig1 : Signature := battle_sig (key32 1) 0 player2 bet.
Definition sig2 : Signature := battle_sig (key32 3) 0 player1 bet.
Definition c_init : Call := CallInitialize token_address.
Definition c_battle : Call := CallBattle sig1 sig2 bet.
Definition W1 : World SimpleToken.state := world_init player1 player2.
Definition W2 : World SimpleToken.state := snd (run_tx env_test c_battle W1).
Definition R : bytes * bytes * Z * Z := (key32 1, key32 1, 1, 1).
Definition token_W1 : SimpleToken.state :=
  default empty_token (w_tokens W1 !! token_address).
Definition me_test : Identifier := Contract (current_contract env_test).
Definition trace_replay : list (Env * Call) := [(env_test, c_battle); (env_test, c_battle)].
(** An account of one signer (its own key, weight 1, threshold 1) and its
    account proof for a [battle] message. *)
Definition acc_key : bytes := key32 7.
Definition player_acc : Identifier := Account acc_key.
Definition acc_sig (n : Z) (other : Identifier) (amount : Z) : Signature :=
  SigAccount {| account_id := acc_key;
                signatures := [{| public_key := acc_key;
                                  signature := sym_sign acc_key (signature_payload env_test "battle"
                                                 (battle_args player_acc n other amount)) |}] |}.
Definition acc_proof : AccountSignatures :=
  match acc_sig 0 player2 bet with SigAccount a => a | _ => {| account_id := []; signatures := [] |} end.
Definition sig2_acc : Signature := battle_sig (key32 3) 0 player_acc bet.
Definition W_acc : World SimpleToken.state := world_init player_acc player2.
Definition W_acc2 : World SimpleToken.state := snd (battle env_test (SigAccount acc_proof) sig2_acc bet W_acc).
Definition R_acc : bytes * bytes * Z * Z :=
  match fst (battle env_test (SigAccount acc_proof) sig2_acc bet W_acc) with Ok r => r | Err _ => R end.
(** An environment in which every account's threshold is 0. *)
Definition env_open : Env := {|
  ledger_timestamp := 1; network_passphrase := [];
  current_contract := battle_address; invoker := InvokerAccount admin;
  account_threshold := fun _ => Some 0; signer_weight := fun _ _ => 1 |}.
(** [W1] in which the invoker's identity has consumed one signed nonce. *)
Definition W_inv : World SimpleToken.state :=
  set_data (data_set (Nonce (sig_identifier env_test Invoker)) (VI64 1) (w_data W1)) W1.
(** [W1] in which player 1's counter has reached [i64::MAX], and player
    1's signature over that counter. *)
Definition W_over : World SimpleToken.state :=
  set_data (data_set (Nonce player1) (VI64 i64_max) (w_data W1)) W1.
Definition sig_over : Signature := battle_sig (key32 1) i64_max player2 bet.
Definition A1 : World SimpleToken.state := snd (authorize env_test sig1 sig2 bet W1).

(** Well-typedness of a concrete storage, by evaluating its decision. *)
Ltac wf_by_eval :=
  match goal with
  | |- data_wf ?d => apply (bool_decide_unpack (data_wf d)); vm_compute; reflexivity
  | |- world_wf ?w => apply (bool_decide_unpack (data_wf (w_data w))); vm_compute; reflexivity
  end.

Lemma battle_W1 : battle env_test sig1 sig2 bet W1 = (Ok R, W2).
Proof. vm_compute. reflexivity. Qed.

Lemma authorize_W1 :
  authorize env_test sig1 sig2 bet W1 =
    (Ok (sig_identifier env_test sig1, sig_identifier env_test sig2), A1).
Proof. vm_compute. reflexivity. Qed.

Lemma battle_W_acc : battle env_test (SigAccount acc_proof) sig2_acc bet W_acc = (Ok R_acc, W_acc2).
Proof. vm_compute. reflexivity. Qed.

Lemma run_battle_W1 : run_tx env_test c_battle W1 = (Ok (RetBattle R), W2).
Proof. vm_compute. reflexivity. Qed.

Lemma wf_W1 : data_wf (w_data W1).
Proof. wf_by_eval. Qed.

Lemma reachable_W1 : reachable W1.
Proof.
  exists (world_deployed player1 player2). split; [reflexivity|].
  apply rtc_once.
  apply (step_tx env_test c_init _ (fst (run_tx env_test c_init (world_deployed player1 player2)))).

  apply surjective_pairing.
Qed.

Lemma steps_W1_W2 : rtc step W1 W2.
Proof.
  apply rtc_once. apply (step_tx env_test c_battle _ (fst (run_tx env_test c_battle W1))).
  apply surjective_pairing.
Qed.

Lemma battle_pays_player2_witness :
  exists tok,
    let me := Contract (current_contract env_test) in
    w_log W2 = w_log W1 ++ [CallXferFrom tok me (sig_identifier env_test sig1) me bet;
                            CallXferFrom tok me (sig_identifier env_test sig2) me bet;
                            CallXfer tok me (sig_identifier env_test sig2) (bet * 2)].
Proof. exact (battle_pays_player2 env_test sig1 sig2 bet W1 W2 R battle_W1). Defined.

Lemma battle_keys_coincide_witness :
  key32 1 = key32 1 /\ 1 = 1 /\
  player_key (sig_identifier env_test sig1) (compare_base env_test) = Ok (key32 1, 1).
Proof.
  exact (battle_keys_coincide env_test sig1 sig2 bet W1 W2 (key32 1) (key32 1) 1 1 battle_W1).
Defined.

Lemma battle_refines_witness : battle_spec env_test sig1 sig2 bet W1 R W2.
Proof. exact (battle_refines env_test sig1 sig2 bet W1 W2 R wf_W1 battle_W1). Defined.

Lemma battle_balances_witness :
  let id1 := sig_identifier env_test sig1 in
  let id2 := sig_identifier env_test sig2 in
  let me := Contract (current_contract env_test) in
  exists t', w_tokens W2 !! token_address = Some t' /\
    tk_balance t' id1 = tk_balance token_W1 id1 - bet /\
    tk_balance t' id2 = tk_balance token_W1 id2 + bet /\
    tk_balance t' me = tk_balance token_W1 me /\
    forall j, j <> id1 -> j <> id2 -> j <> me -> tk_balance t' j = tk_balance token_W1 j.
Proof.
  exact (battle_balances env_test sig1 sig2 bet W1 W2 R token_address token_W1 wf_W1 battle_W1
           (ltac:(vm_compute; reflexivity)) (ltac:(vm_compute; reflexivity))
           (ltac:(vm_compute; discriminate)) (ltac:(vm_compute; discriminate))
           (ltac:(vm_compute; discriminate))).
Defined.

Lemma battle_no_replay_witness :
  battle env_test sig1 sig2 bet W2 = (Err InvalidAuthorization, W2).
Proof. exact (battle_no_replay env_test (key32 1) _ sig2 bet W1 W2 R wf_W1 battle_W1). Defined.

Lemma battle_rejects_mismatched_terms_witness :
  battle env_test (battle_sig (key32 1) 0 player2 (bet - 10)) sig2 bet W1 =
    (Err InvalidAuthorization, W1).
Proof.
  apply (battle_rejects_mismatched_terms env_test (key32 1) _ sig2 bet W1 0 player2 (bet - 10)
           wf_W1); [vm_compute; reflexivity|vm_compute; congruence].
Defined.

Lemma battle_succeeds_witness :
  exists w', battle env_test sig1 sig2 bet W1 = (Ok (key32 1, key32 1, 1, 1), w').
Proof.
  apply (battle_succeeds env_test sig1 sig2 bet W1
           (view_update (nonce_view (w_data W1)) player1 1)
           (view_update (view_update (nonce_view (w_data W1)) player1 1) player2 1)
           token_address token_W1 (key32 1) 1 wf_W1);
    first [vm_compute; reflexivity
          |eexists; split; [vm_compute; reflexivity|intros; vm_compute; reflexivity]
          |eexists; vm_compute; reflexivity
          |vm_compute; discriminate
          |vm_compute; congruence].
Defined.

Lemma battle_compare_index_witness :
  1 = 1 /\ 0 <= 1 < 48 /\
  1 = ledger_timestamp env_test mod 32
      + match sig_identifier env_test sig1 with Account _ => 16 | _ => 0 end.
Proof.
  exact (battle_compare_index env_test sig1 sig2 bet W1 W2 (key32 1) (key32 1) 1 1 battle_W1).
Defined.

Lemma initialize_write_once_witness :
  token (data_set Token (VBytes token_address) ∅) =
    (Ok token_address, data_set Token (VBytes token_address) ∅) /\
  initialize (key32 7) (data_set Token (VBytes token_address) ∅) =
    (Err AlreadyInitialized, data_set Token (VBytes token_address) ∅) /\
  (forall k, k <> Token -> data_set Token (VBytes token_address) ∅ !! k = (∅ : Data) !! k).
Proof.
  exact (initialize_write_once token_address (key32 7) ∅ _
           (ltac:(vm_compute; reflexivity)) (ltac:(vm_compute; reflexivity))).
Defined.

Lemma reachable_wf_witness : world_wf W1.
Proof. exact (reachable_wf W1 reachable_W1). Defined.

Lemma token_address_immutable_witness :
  w_data W2 !! Token = Some (VBytes token_address).
Proof.
  exact (token_address_immutable W1 W2 (VBytes token_address) reachable_W1 steps_W1_W2
           (ltac:(vm_compute; reflexivity))).
Defined.

Lemma nonce_monotone_witness :
  nonce_view (w_data W1) player1 <= nonce_view (w_data W2) player1.
Proof. exact (nonce_monotone W1 W2 player1 reachable_W1 steps_W1_W2). Defined.

Lemma invoker_battle_keeps_nonces_witness :
  nonce_view (w_data (snd (run_tx env_test (CallBattle Invoker Invoker bet) W1))) player1 =
  nonce_view (w_data W1) player1.
Proof.
  exact (invoker_battle_keeps_nonces env_test bet W1 _ _ wf_W1 (surjective_pairing _) player1).
Defined.

Lemma authorize_symmetric_witness :
  authorize env_test sig2 sig1 bet W1 =
    (Ok (sig_identifier env_test sig2, sig_identifier env_test sig1), A1).
Proof. exact (authorize_symmetric env_test sig1 sig2 bet W1 A1 _ _ wf_W1 authorize_W1). Defined.

Lemma battle_before_initialize_aborts_witness :
  exists e, run_tx env_test c_battle (world_deployed player1 player2) =
              (Err e, world_deployed player1 player2).
Proof.
  apply (battle_before_initialize_aborts env_test sig1 sig2 bet (world_deployed player1 player2));
    [apply data_wf_empty|reflexivity].
Defined.

Lemma nonce_counts_accepted_proofs_witness :
  nonce_view (w_data (snd (run_trace trace_replay W1))) player1 =
    nonce_view (w_data W1) player1 + accepted trace_replay (fst (run_trace trace_replay W1)) player1.
Proof. exact (nonce_counts_accepted_proofs trace_replay W1 player1 wf_W1). Defined.

(** The replayed battle of [trace_replay] is rejected: player 1's counter
    counts the one accepted proof. *)
Example trace_replay_counts :
  fst (run_trace trace_replay W1) = [Ok (RetBattle R); Err InvalidAuthorization] /\
  nonce_view (w_data (snd (run_trace trace_replay W1))) player1 = 1.
Proof. vm_compute. split; reflexivity. Qed.

Lemma verify_account_signatures_spec_witness :
  verify_account_signatures env_test acc_proof "battle" (battle_args player_acc 0 player2 bet) = Ok tt <->
  exists th, account_threshold env_test (account_id acc_proof) = Some th /\
    keys_increasing None (map public_key (signatures acc_proof)) = true /\
    Forall (fun s => ed25519_verify (public_key s)
                       (signature_payload env_test "battle" (battle_args player_acc 0 player2 bet))
                       (signature s) = true) (signatures acc_proof) /\
    th <= sigs_weight env_test (account_id acc_proof) (signatures acc_proof) <= u32_max.
Proof.
  apply (verify_account_signatures_spec env_test acc_proof player_acc 0 player2 bet).
  intros pk. simpl. lia.
Defined.

Lemma battle_no_replay_account_witness :
  battle env_test (SigAccount acc_proof) sig2_acc bet W_acc2 = (Err InvalidAuthorization, W_acc2).
Proof.
  apply (battle_no_replay_account env_test acc_proof sig2_acc bet W_acc W_acc2 R_acc 1);
    [wf_by_eval|reflexivity|lia|intros pk; simpl; lia|exact battle_W_acc].
Defined.

Lemma empty_account_proof_accepted_witness :
  verify env_open (SigAccount {| account_id := acc_key; signatures := [] |}) "battle"
    (battle_args player_acc 5 player2 bet) = Ok tt.
Proof. apply (empty_account_proof_accepted env_open acc_key 5 player2 bet 0); [reflexivity|lia]. Defined.

Lemma battle_invoker_nonce_locked_witness :
  battle env_test Invoker sig2 bet W_inv = (Err IncorrectNonceForInvoker, W_inv).
Proof.
  apply (battle_invoker_nonce_locked env_test sig2 bet W_inv); [wf_by_eval|vm_compute; discriminate].
Defined.

Lemma battle_same_signer_aborts_witness :
  exists e, run_tx env_test (CallBattle sig1 sig1 bet) W1 = (Err e, W1).
Proof.
  apply (battle_same_signer_aborts env_test sig1 sig1 bet W1); [exact wf_W1|discriminate|discriminate|reflexivity].
Defined.

Lemma run_tx_refines_spec_witness :
  exists a', spec_step env_test (abs W1) c_battle (Ok (RetBattle R)) a' /\ aeq a' (abs W2).
Proof. exact (run_tx_refines_spec env_test c_battle W1 W2 (Ok (RetBattle R)) wf_W1 run_battle_W1). Defined.

Lemma entry_points_results_witness :
  (forall t, run_tx env_test (CallInitialize t) W1 =
     (if negb (bytesN 32 t) then (Err ConversionError, W1)
      else if data_has Token (w_data W1) then (Err AlreadyInitialized, W1)
      else (Ok RetUnit, set_data (data_set Token (VBytes t) (w_data W1)) W1))) /\
  (forall u, run_tx env_test (CallNonce u) W1 = (Ok (RetI64 (nonce_view (w_data W1) u)), W1)) /\
  run_tx env_test CallToken W1 =
    (match w_data W1 !! Token with
     | Some (VBytes b) => (Ok (RetBytes b), W1)
     | _ => (Err UnwrapNone, W1)
     end).
Proof. exact (entry_points_results env_test W1 wf_W1). Defined.

Lemma run_tx_complete_witness :
  exists w', run_tx env_test (CallNonce player1) W1 =
               (Ok (RetI64 (a_nonce (abs W1) player1)), w') /\ aeq (abs W1) (abs w').
Proof.
  exact (run_tx_complete env_test (CallNonce player1) W1 _ (abs W1) wf_W1
           (ss_nonce env_test (abs W1) player1) I).
Defined.

Lemma battle_nonce_overflow_witness :
  battle env_test sig_over sig2 bet W_over = (Err Overflow, W_over).
Proof.
  apply (battle_nonce_overflow env_test sig_over sig2 bet W_over);
    [wf_by_eval|discriminate|vm_compute; reflexivity|vm_compute; reflexivity].
Defined.
